(** * venvkiller: the scanner (finder.py) and the deletion engine (cleaner.py)

    The two modules are embedded over an explicit model of the file system:
    a tree of files and directories whose nodes carry the outcome of the
    system calls the code issues on them (stat, unlink, scandir, rmdir).
    Paths are absolute and held as the list of their components.

    The modules [Finder] and [Cleaner] answer [exists()] and [is_dir()] by
    a lookup in the tree: they are the two source modules on a file system
    all of whose directories may be searched.  The modules [Access],
    [FinderAccess] and [CleanerAccess] add the search permission: there
    [exists()] and [is_dir()] raise PermissionError on a path that goes
    through a directory that may not be searched, and the exception travels
    as in the source, to the handler of the enclosing loop or out of the
    function.  Where no such directory is on the way, the two descriptions
    coincide ([AccessProofs]).

    What the model leaves out: symbolic links, and other processes changing
    the tree while the code runs.  Names are byte strings, paths and
    OSError messages are rendered as on Linux, and the threads of the
    parallel scan only read the tree, so that a scan is the concatenation
    of the results of its workers in the order of executor.map. *)

From Stdlib Require Import Ascii.
From stdpp Require Import base decidable option list strings gmap pretty.

(** ** The file system *)

Module FS.

(** A path is the list of its components below the root "/". *)
Abbreviation path := (list string).

(** [File size stat_ok unlink_ok]: a regular file of [size] bytes; stat(2)
    on it raises PermissionError unless [stat_ok], unlink(2) unless
    [unlink_ok].
    [Dir listable rmdir_ok entries]: a directory; listing it (scandir,
    iterdir) raises PermissionError unless [listable], rmdir(2) raises
    unless [rmdir_ok] and the directory is empty.  [entries] is in the
    order the operating system lists them. *)
#[local] Unset Elimination Schemes.
Inductive node : Type :=
| File (size : N) (stat_ok unlink_ok : bool)
| Dir (listable rmdir_ok : bool) (entries : list (string * node)).
#[local] Set Elimination Schemes.

(** Exceptions: OSError (PermissionError is a subclass) and the others;
    [str e] is the message. *)
Inductive exn : Type :=
| OSError (msg : string)
| ZeroDivisionError (msg : string)
| OtherError (msg : string).

Inductive errno : Type := EACCES | ENOTEMPTY | ENOENT | ENOTDIR | EBUSY.

Definition str_exn (e : exn) : string :=
  match e with OSError m | ZeroDivisionError m | OtherError m => m end.

Definition is_oserror (e : exn) : bool :=
  match e with OSError _ => true | _ => false end.

(** [str(path)] on a POSIX system. *)
Fixpoint join_with (sep : string) (l : list string) : string :=
  match l with
  | [] => ""
  | [x] => x
  | x :: l' => x +:+ sep +:+ join_with sep l'
  end.

Definition str_path (p : path) : string := "/" +:+ join_with "/" p.

Definition strerror (e : errno) : string :=
  match e with
  | EACCES => "[Errno 13] Permission denied"
  | ENOTEMPTY => "[Errno 39] Directory not empty"
  | ENOENT => "[Errno 2] No such file or directory"
  | ENOTDIR => "[Errno 20] Not a directory"
  | EBUSY => "[Errno 16] Device or resource busy"
  end.

(** An OSError that carries [filename]. *)
Definition os_error_named (e : errno) (filename : string) : exn :=
  OSError (strerror e +:+ ": '" +:+ filename +:+ "'").

Definition os_error (e : errno) (p : path) : exn :=
  os_error_named e (str_path p).

(** Path.name, Path.parent and the [/] operator of pathlib. *)
Definition name (p : path) : string := default "" (last p).
Definition parent (p : path) : path := removelast p.

Fixpoint split_slash (acc : string) (s : string) : list string :=
  match s with
  | EmptyString => [String.rev acc]
  | String c s' =>
      if Ascii.eqb c "/"%char then String.rev acc :: split_slash "" s'
      else split_slash (String c acc) s'
  end.

Definition joinpath (p : path) (rel : string) : path :=
  p ++ filter (λ c, c ≠ "") (split_slash "" rel).

Fixpoint lookup_entry (c : string) (es : list (string * node)) : option node :=
  match es with
  | [] => None
  | (nm, n) :: es' => if decide (nm = c) then Some n else lookup_entry c es'
  end.

Fixpoint resolve (n : node) (p : path) : option node :=
  match p with
  | [] => Some n
  | c :: p' =>
      match n with
      | Dir _ _ es => lookup_entry c es ≫= λ ch, resolve ch p'
      | File _ _ _ => None
      end
  end.

Definition exists_ (fs : node) (p : path) : bool :=
  match resolve fs p with Some _ => true | None => false end.

Definition is_dir (fs : node) (p : path) : bool :=
  match resolve fs p with Some (Dir _ _ _) => true | _ => false end.

(** Path.iterdir: the children of a directory, or OSError. *)
Definition iterdir (fs : node) (p : path) : option (list path) :=
  match resolve fs p with
  | Some (Dir true _ es) => Some ((λ e, p ++ [e.1]) <$> es)
  | _ => None
  end.

(** Replace ([Some]) or remove ([None]) the first entry called [c]. *)
Fixpoint alter_entry (f : node → option node) (c : string)
    (es : list (string * node)) : list (string * node) :=
  match es with
  | [] => []
  | (nm, n) :: es' =>
      if decide (nm = c)
      then match f n with Some n' => (nm, n') :: es' | None => es' end
      else (nm, n) :: alter_entry f c es'
  end.

(** The tree with the node at [p] replaced by [new], or removed. The root
    itself cannot be removed. *)
Fixpoint update (p : path) (new : option node) (n : node) : node :=
  match p with
  | [] => default n new
  | c :: p' =>
      match n with
      | Dir l r es =>
          Dir l r (alter_entry
                     (λ ch, match p' with
                            | [] => new
                            | _ => Some (update p' new ch)
                            end) c es)
      | File _ _ _ => n
      end
  end.

(** Entry names are unique in every directory. *)
Fixpoint wf (n : node) : Prop :=
  match n with
  | File _ _ _ => True
  | Dir _ _ es => NoDup es.*1 ∧ fold_right (λ e rest, wf e.2 ∧ rest) True es
  end.

(** The same, as a test. *)
Fixpoint wf_b (n : node) : bool :=
  match n with
  | File _ _ _ => true
  | Dir _ _ es => bool_decide (NoDup es.*1) && forallb (λ e, wf_b e.2) es
  end.

End FS.

(** ** finder.py, where every directory may be searched *)

Module Finder.
Import FS.

Definition VENV_IDENTIFIERS : list string :=
  [ "pyvenv.cfg"; "bin/activate"; "Scripts/activate";
    "bin/python"; "Scripts/python.exe" ].

Definition is_virtual_env (fs : node) (p : path) : bool :=
  if negb (is_dir fs p) then false
  else existsb (λ identifier, exists_ fs (joinpath p identifier))
         VENV_IDENTIFIERS.

(** str.startswith('.') and str.lower() on the bytes of a name; only the
    letters A-Z matter for the comparison with the allow-list. *)
Definition startswith_dot (s : string) : bool :=
  match s with
  | String c _ => Ascii.eqb c "."%char
  | EmptyString => false
  end.

Definition lower_ascii (c : ascii) : ascii :=
  let n := Ascii.N_of_ascii c in
  if ((65 <=? n) && (n <=? 90))%N then Ascii.ascii_of_N (n + 32) else c.

Fixpoint lower (s : string) : string :=
  match s with
  | EmptyString => EmptyString
  | String c s' => String (lower_ascii c) (lower s')
  end.

Definition hidden_allow_list : gset string := {[ ".venv"; ".env"; ".virtualenv" ]}.

(** The condition of the [if] in the loop of find_venvs_in_dir. *)
Definition eligible (fs : node) (item : path) : bool :=
  is_dir fs item &&
  ((startswith_dot (name item) && bool_decide (lower (name item) ∈ hidden_allow_list))
   || negb (startswith_dot (name item))).

(** find_venvs_in_dir, by recursion on the depth budget: [depth] is
    [max_depth] when positive and 0 when [max_depth <= 0]. *)
Fixpoint find_venvs_in_dir_depth (fs : node) (depth : nat)
    (exclude_dirs : gset string) (directory : path) : list path :=
  if bool_decide (name directory ∈ exclude_dirs) then []
  else if is_virtual_env fs directory then [directory]
  else match depth with
       | O => []
       | S depth' =>
           match iterdir fs directory with
           | Some items =>
               flat_map (λ item,
                   if eligible fs item
                   then find_venvs_in_dir_depth fs depth' exclude_dirs item
                   else []) items
           | None => []
           end
       end.

Definition find_venvs_in_dir (fs : node) (directory : path) (max_depth : Z)
    (exclude_dirs : gset string) : list path :=
  find_venvs_in_dir_depth fs (Z.to_nat max_depth) exclude_dirs directory.

Definition default_excludes (win32 : bool) : list string :=
  if win32 then ["Windows"; "Program Files"; "Program Files (x86)"]
  else ["proc"; "sys"; "dev"; "run"].

Definition exclude_set (win32 : bool) (exclude_dirs : list string) : gset string :=
  list_to_set exclude_dirs ∪ list_to_set (default_excludes win32).

(** find_venvs; [start_path] is the resolved start directory and [win32]
    is [sys.platform == 'win32'].  executor.map hands the results back in
    the order of [top_dirs]. *)
Definition find_venvs (fs : node) (win32 : bool) (start_path : path)
    (max_depth : Z) (exclude_dirs : list string) (parallel : bool) : list path :=
  let exclude_set := exclude_set win32 exclude_dirs in
  if negb parallel then find_venvs_in_dir fs start_path max_depth exclude_set
  else
    match iterdir fs start_path with
    | Some items =>
        let top_dirs :=
          filter (λ d, is_dir fs d = true ∧ name d ∉ exclude_set) items in
        flat_map (λ d, find_venvs_in_dir fs d (max_depth - 1) exclude_set) top_dirs
    | None => []
    end.

Definition req_patterns : list string :=
  [ "requirements.txt"; "pyproject.toml"; "Pipfile";
    "setup.py"; "poetry.lock"; "Pipfile.lock" ].

(** The body of [for _ in range(3)], [count] iterations left. *)
Fixpoint check_levels (fs : node) (count : nat) (dir_to_check : path)
    (req_files : list string) : list string :=
  match count with
  | O => req_files
  | S count' =>
      let req_files :=
        req_files ++
        ((λ pattern, str_path (joinpath dir_to_check pattern)) <$>
           filter (λ pattern, exists_ fs (joinpath dir_to_check pattern) = true)
             req_patterns) in
      let parent := parent dir_to_check in
      if decide (parent = dir_to_check) then req_files
      else check_levels fs count' parent req_files
  end.

Definition has_requirement_files (fs : node) (parent_dir : path)
    : bool * list string :=
  let req_files := check_levels fs 3 parent_dir [] in
  (bool_decide (req_files ≠ []), req_files).

End Finder.

(** ** cleaner.py, where every directory on the way to a path may be searched *)

Module Cleaner.
Import FS.

(** A progress callback either returns ([None]) or raises ([Some e]). *)
Definition byte_callback : Type := N → N → option exn.
Definition batch_callback : Type := nat → nat → string → option exn.

(** The size walk, [for root, dirs, files in os.walk(path)], adding to
    [total_size]: the files of a directory whose stat succeeds, then its
    subdirectories; a directory that cannot be listed yields nothing. *)
Fixpoint walk_size (n : node) (total_size : N) : N :=
  match n with
  | File _ _ _ => total_size
  | Dir l _ es =>
      if l then
        let total_size :=
          fold_left (λ total e,
              match e.2 with
              | File sz true _ => (total + sz)%N
              | _ => total
              end) es total_size in
        fold_left (λ total e, walk_size e.2 total) es total_size
      else total_size
  end.

Definition dir_size (fs : node) (p : path) : N :=
  match resolve fs p with
  | Some n => walk_size n 0
  | None => 0%N
  end.

(** The local variables of safe_delete_venv during the deletion, the
    progress calls made so far, and the exception that has escaped the
    inner handlers, if any. *)
Record progress : Type := Progress {
  bytes_removed : N;
  errors : list string;
  calls : list (N * N);
  raised : option exn
}.

Definition add_error (msg : string) (st : progress) : progress :=
  Progress (bytes_removed st) (errors st ++ [msg]) (calls st) (raised st).
Definition add_bytes (sz : N) (st : progress) : progress :=
  Progress (bytes_removed st + sz) (errors st) (calls st) (raised st).
Definition add_call (c : N * N) (st : progress) : progress :=
  Progress (bytes_removed st) (errors st) (calls st ++ [c]) (raised st).
Definition set_raised (e : exn) (st : progress) : progress :=
  Progress (bytes_removed st) (errors st) (calls st) (Some e).

Definition file_error (file_path : path) (e : exn) : string :=
  "Error deleting file " +:+ str_path file_path +:+ ": " +:+ str_exn e.
Definition dir_error (dir_path : path) (e : exn) : string :=
  "Error deleting directory " +:+ str_path dir_path +:+ ": " +:+ str_exn e.

(** The body of [for file in files]: stat, unlink, add, report.  The
    boolean tells whether the file is gone. *)
Definition delete_file (progress_callback : option byte_callback)
    (total_size : N) (root : path) (file : string)
    (size : N) (stat_ok unlink_ok : bool) (st : progress) : bool * progress :=
  let file_path := root ++ [file] in
  if negb stat_ok then
    (false, add_error (file_error file_path (os_error EACCES file_path)) st)
  else if negb unlink_ok then
    (false, add_error (file_error file_path (os_error EACCES file_path)) st)
  else
    let st := add_bytes size st in
    match progress_callback with
    | None => (true, st)
    | Some f =>
        let st' := add_call (bytes_removed st, total_size) st in
        match f (bytes_removed st) total_size with
        | None => (true, st')
        | Some (OSError m) => (true, add_error (file_error file_path (OSError m)) st')
        | Some e => (true, set_raised e st')
        end
    end.

Fixpoint delete_files (progress_callback : option byte_callback)
    (total_size : N) (root : path) (es : list (string * node))
    (st : progress) : list (string * node) * progress :=
  match es with
  | [] => ([], st)
  | (nm, c) :: es' =>
      match raised st, c with
      | None, File sz s u =>
          let '(gone, st) := delete_file progress_callback total_size root nm sz s u st in
          let '(es', st) := delete_files progress_callback total_size root es' st in
          (if gone then es' else (nm, c) :: es', st)
      | _, _ =>
          let '(es', st) := delete_files progress_callback total_size root es' st in
          ((nm, c) :: es', st)
      end
  end.

(** os.rmdir on the node at [p]. *)
Definition rmdir (p : path) (n : node) : option exn :=
  match n with
  | File _ _ _ => Some (os_error ENOTDIR p)
  | Dir _ r es =>
      if decide (p = []) then Some (os_error EBUSY p)
      else if negb r then Some (os_error EACCES p)
      else match es with
           | [] => None
           | _ :: _ => Some (os_error ENOTEMPTY p)
           end
  end.

(** The body of [for dir in dirs]. *)
Fixpoint delete_dirs (root : path) (es : list (string * node))
    (st : progress) : list (string * node) * progress :=
  match es with
  | [] => ([], st)
  | (nm, c) :: es' =>
      match raised st, c with
      | None, Dir _ _ _ =>
          let dir_path := root ++ [nm] in
          match rmdir dir_path c with
          | None => delete_dirs root es' st
          | Some e =>
              let '(es', st) := delete_dirs root es' (add_error (dir_error dir_path e) st) in
              ((nm, c) :: es', st)
          end
      | _, _ =>
          let '(es', st) := delete_dirs root es' st in
          ((nm, c) :: es', st)
      end
  end.

(** The walk of the subdirectories listed in [es], in order; [walk] is the
    walk of one of them. *)
Definition walk_subdirs (walk : path → node → progress → node * progress)
    (root : path) : list (string * node) → progress → list (string * node) * progress :=
  fix subdirs es st :=
    match es with
    | [] => ([], st)
    | (nm, c) :: es' =>
        let '(c, st) := walk (root ++ [nm]) c st in
        let '(es', st) := subdirs es' st in
        ((nm, c) :: es', st)
    end.

(** [for root, dirs, files in os.walk(venv_path, topdown=False)]: a
    directory is listed, its subdirectories are walked in the order of the
    listing, then the loop body runs on the directory itself.  The result
    is what is left of the directory.  Once an exception has escaped
    ([raised]), nothing more is done. *)
Fixpoint delete_walk (progress_callback : option byte_callback)
    (total_size : N) (root : path) (n : node) (st : progress) : node * progress :=
  match n with
  | File _ _ _ => (n, st)
  | Dir l r es =>
      if negb l then (n, st)
      else
        let '(es, st) :=
          walk_subdirs (delete_walk progress_callback total_size) root es st in
        let '(es, st) := delete_files progress_callback total_size root es st in
        let '(es, st) := delete_dirs root es st in
        (Dir l r es, st)
  end.

(** shutil.rmtree: entries in listing order, the first error is raised.
    The tree is walked through directory descriptors: an entry is opened,
    unlinked and removed by its name relative to the directory that holds
    it, and that name is the file name of the OSError; the directory given
    to rmtree is named by its path.  [filename] is that file name. *)
Inductive rm_result : Type :=
| Removed
| Failed (rest : node) (e : exn).

Definition rmtree_entries (rm : string → path → node → rm_result) (p : path)
    : list (string * node) → () + list (string * node) * exn :=
  fix entries es :=
    match es with
    | [] => inl ()
    | (nm, c) :: es' =>
        match rm nm (p ++ [nm]) c with
        | Removed => entries es'
        | Failed c' e => inr ((nm, c') :: es', e)
        end
    end.

Fixpoint rmtree (filename : string) (p : path) (n : node) : rm_result :=
  match n with
  | File _ _ u => if u then Removed else Failed n (os_error_named EACCES filename)
  | Dir l r es =>
      if negb l then Failed n (os_error_named EACCES filename)
      else
        match rmtree_entries rmtree p es with
        | inl _ =>
            match rmdir p (Dir l r []) with
            | None => Removed
            | Some _ =>
                Failed (Dir l r [])
                  (os_error_named (if decide (p = []) then EBUSY else EACCES) filename)
            end
        | inr (es', e) => Failed (Dir l r es') e
        end
  end.

(** "Finally remove the root directory": rmdir, else rmtree. *)
Definition remove_root (venv_path : path) (n : node) (st : progress)
    : option node * progress :=
  match raised st with
  | Some _ => (Some n, st)
  | None =>
      match rmdir venv_path n with
      | None => (None, st)
      | Some _ =>
          match rmtree (str_path venv_path) venv_path n with
          | Removed => (None, st)
          | Failed n' e2 =>
              (Some n', add_error ("Error deleting root directory: " +:+ str_exn e2) st)
          end
      end
  end.

Definition newline : string := String (ascii_of_nat 10) "".

(** What safe_delete_venv returns, what it leaves on disk and the progress
    calls it made. *)
Record outcome : Type := Outcome {
  success : bool;
  detail : string;
  fs_after : node;
  progress_calls : list (N * N)
}.

(** The state at the end of the [try] block of safe_delete_venv. *)
Definition deletion (venv_path : path) (n : node)
    (progress_callback : option byte_callback) : option node * progress :=
  let total_size := walk_size n 0 in
  let '(n, st) :=
    delete_walk progress_callback total_size venv_path n (Progress 0 [] [] None) in
  remove_root venv_path n st.

Definition report (st : progress) : bool * string :=
  match raised st with
  | Some e => (false, "Unexpected error during deletion: " +:+ str_exn e)
  | None =>
      match errors st with
      | _ :: _ =>
          if (0 <? bytes_removed st)%N then
            (true, "Partially deleted (" +:+ pretty (length (errors st)) +:+ " errors)")
          else
            (false,
             join_with newline (take 3 (errors st)) +:+
             (if 3 <? length (errors st)
              then " (and " +:+ pretty (length (errors st) - 3) +:+ " more errors)"
              else ""))
      | [] => (true, "")
      end
  end.

Definition safe_delete_venv (fs : node) (venv_path : path)
    (progress_callback : option byte_callback) : outcome :=
  match resolve fs venv_path with
  | Some (Dir l r es) =>
      let '(n, st) := deletion venv_path (Dir l r es) progress_callback in
      let '(ok, msg) := report st in
      Outcome ok msg (update venv_path n fs) (calls st)
  | _ =>
      Outcome false ("Directory does not exist: " +:+ str_path venv_path) fs []
  end.

(** What delete_multiple_venvs returns, or the exception it lets through. *)
Inductive batch_result : Type :=
| Returned (fs : node) (venvs_deleted : nat) (bytes_freed : N)
    (failures : list (path * string))
| Raised (fs : node) (e : exn).

Section Batch.
(** The text of [f"{bytes_done/total*100:.0f}"] for [total ≠ 0]: floating
    point division, product and rounding, kept abstract. *)
Variable format_percent : N → N → string.

Definition venv_progress (progress_callback : option batch_callback)
    (venvs_deleted total_venvs : nat) (venv_path : path) : byte_callback :=
  λ bytes_done total,
    match progress_callback with
    | None => None
    | Some f =>
        if (total =? 0)%N then Some (ZeroDivisionError "division by zero")
        else f venvs_deleted total_venvs
               (str_path venv_path +:+ " (" +:+ format_percent bytes_done total +:+ "%)")
    end.

(** The loop of delete_multiple_venvs over the paths that are left. *)
Fixpoint delete_loop (progress_callback : option batch_callback)
    (total_venvs : nat) (venv_paths : list path) (fs : node)
    (venvs_deleted : nat) (bytes_freed : N)
    (failures : list (path * string)) : batch_result :=
  match venv_paths with
  | [] => Returned fs venvs_deleted bytes_freed failures
  | venv_path :: rest =>
      match
        match progress_callback with
        | Some f => f venvs_deleted total_venvs (str_path venv_path)
        | None => None
        end
      with
      | Some e => Raised fs e
      | None =>
          let venv_size := dir_size fs venv_path in
          let out :=
            safe_delete_venv fs venv_path
              (Some (venv_progress progress_callback venvs_deleted total_venvs venv_path)) in
          if success out then
            delete_loop progress_callback total_venvs rest (fs_after out)
              (S venvs_deleted) (bytes_freed + venv_size) failures
          else
            delete_loop progress_callback total_venvs rest (fs_after out)
              venvs_deleted bytes_freed (failures ++ [(venv_path, detail out)])
      end
  end.

Definition delete_multiple_venvs (fs : node) (venv_paths : list path)
    (progress_callback : option batch_callback) : batch_result :=
  delete_loop progress_callback (length venv_paths) venv_paths fs 0 0 [].

End Batch.

(** A file that the deletion walk reaches and can stat and unlink. *)
Fixpoint has_deletable_file (n : node) : bool :=
  match n with
  | File _ s u => s && u
  | Dir l _ es => l && existsb (λ e, has_deletable_file e.2) es
  end.

End Cleaner.

(** ** Search permission

    The lookups of [FS] answer exists() and is_dir() for every path: they
    describe a file system all of whose directories may be searched.  A
    directory without the search permission (no x bit) makes stat(2) fail
    with EACCES on every path that goes through it, and pathlib's exists()
    and is_dir() let that error through as a PermissionError; listing a
    directory needs the read permission on it, which is the flag
    [listable] of the node, and the search permission on the directories
    above it.  [sealed] is the set of the directories that may not be
    searched. *)

Module Access.
Import FS.

(** What a call returns, or the exception it raises. *)
Inductive result (A : Type) : Type :=
| Ok (a : A)
| Raise (e : exn).
Arguments Ok {A} a.
Arguments Raise {A} e.

Inductive stat_result : Type :=
| Found (n : node)
| Missing
| Denied.

(** stat(2) on the path [p] below the node [n], which lies at [here]: the
    components are looked up one after the other, each in a directory that
    must be searchable. *)
Fixpoint stat_from (sealed : gset path) (here : path) (n : node) (p : path)
    : stat_result :=
  match p with
  | [] => Found n
  | c :: p' =>
      match n with
      | File _ _ _ => Missing
      | Dir _ _ es =>
          if bool_decide (here ∈ sealed) then Denied
          else match lookup_entry c es with
               | Some ch => stat_from sealed (here ++ [c]) ch p'
               | None => Missing
               end
      end
  end.

Definition stat (sealed : gset path) (fs : node) (p : path) : stat_result :=
  stat_from sealed [] fs p.

(** Path.exists() and Path.is_dir(): ENOENT and ENOTDIR give False, EACCES
    is raised. *)
Definition exists_ (sealed : gset path) (fs : node) (p : path) : result bool :=
  match stat sealed fs p with
  | Found _ => Ok true
  | Missing => Ok false
  | Denied => Raise (os_error EACCES p)
  end.

Definition is_dir (sealed : gset path) (fs : node) (p : path) : result bool :=
  match stat sealed fs p with
  | Found (Dir _ _ _) => Ok true
  | Found (File _ _ _) | Missing => Ok false
  | Denied => Raise (os_error EACCES p)
  end.

(** Path.iterdir: the children of a directory, or OSError. *)
Definition iterdir (sealed : gset path) (fs : node) (p : path) : option (list path) :=
  match stat sealed fs p with
  | Found (Dir true _ es) => Some ((λ e, p ++ [e.1]) <$> es)
  | _ => None
  end.

(** No directory on the way to [p] is sealed: stat(2) on [p] is not
    refused. *)
Definition searchable (sealed : gset path) (p : path) : Prop :=
  ∀ pre c post, p = pre ++ c :: post → pre ∉ sealed.

(** No sealed directory lies at, above or below [start]. *)
Definition open_below (sealed : gset path) (start : path) : Prop :=
  set_Forall (λ q, ¬ start `prefix_of` q ∧ ¬ q `prefix_of` start) sealed.

#[global] Instance open_below_dec sealed start : Decision (open_below sealed start).
Proof. unfold open_below. apply _. Defined.

End Access.

(** ** finder.py, with search permission *)

Module FinderAccess.
Import FS Access.

Section Scan.
Variable sealed : gset path.
(** The order in which [for identifier in VENV_IDENTIFIERS] goes through
    the set, which Python does not fix. *)
Variable identifiers : list string.

(** The loop of is_virtual_env over the identifiers that are left. *)
Fixpoint any_exists (fs : node) (p : path) (ids : list string) : result bool :=
  match ids with
  | [] => Ok false
  | identifier :: ids' =>
      match Access.exists_ sealed fs (joinpath p identifier) with
      | Raise e => Raise e
      | Ok true => Ok true
      | Ok false => any_exists fs p ids'
      end
  end.

Definition is_virtual_env (fs : node) (p : path) : result bool :=
  match Access.is_dir sealed fs p with
  | Raise e => Raise e
  | Ok false => Ok false
  | Ok true => any_exists fs p identifiers
  end.

(** The loop [for item in directory.iterdir()] of find_venvs_in_dir, which
    runs inside the [try]: what it yields.  [scan] is the generator of a
    child; it gives what the child yields and the exception that leaves
    it, if any.  An exception of is_dir() or of a child is caught by the
    handler around the loop, which ends it. *)
Definition scan_items (fs : node) (scan : path → list path * option exn)
    : list path → list path :=
  fix loop items :=
    match items with
    | [] => []
    | item :: rest =>
        match Access.is_dir sealed fs item with
        | Raise _ => []
        | Ok d =>
            if d && ((Finder.startswith_dot (name item) &&
                      bool_decide (Finder.lower (name item) ∈ Finder.hidden_allow_list))
                     || negb (Finder.startswith_dot (name item)))
            then match scan item with
                 | (found, None) => found ++ loop rest
                 | (found, Some _) => found
                 end
            else loop rest
        end
    end.

(** find_venvs_in_dir, by recursion on the depth budget: what the
    generator yields and the exception that leaves it, if any.  The call of
    is_virtual_env on the directory itself is outside the [try]. *)
Fixpoint find_venvs_in_dir_depth (fs : node) (depth : nat)
    (exclude_dirs : gset string) (directory : path) : list path * option exn :=
  if bool_decide (name directory ∈ exclude_dirs) then ([], None)
  else match is_virtual_env fs directory with
       | Raise e => ([], Some e)
       | Ok true => ([directory], None)
       | Ok false =>
           match depth with
           | O => ([], None)
           | S depth' =>
               match Access.iterdir sealed fs directory with
               | Some items =>
                   (scan_items fs (find_venvs_in_dir_depth fs depth' exclude_dirs) items,
                    None)
               | None => ([], None)
               end
           end
       end.

Definition find_venvs_in_dir (fs : node) (directory : path) (max_depth : Z)
    (exclude_dirs : gset string) : list path * option exn :=
  find_venvs_in_dir_depth fs (Z.to_nat max_depth) exclude_dirs directory.

(** The list comprehension that builds [top_dirs]; [None] when is_dir()
    raises. *)
Fixpoint top_dirs (fs : node) (exclude_set : gset string) (items : list path)
    : option (list path) :=
  match items with
  | [] => Some []
  | d :: rest =>
      match Access.is_dir sealed fs d with
      | Raise _ => None
      | Ok b =>
          match top_dirs fs exclude_set rest with
          | None => None
          | Some dirs =>
              Some (if b && bool_decide (name d ∉ exclude_set) then d :: dirs else dirs)
          end
      end
  end.

(** [for result in executor.map(...)]: the lists of the workers are added
    in the order of [top_dirs]; the exception of a worker is raised when
    its turn comes, and ends the loop. *)
Fixpoint gather (worker : path → list path * option exn) (dirs : list path)
    : list path :=
  match dirs with
  | [] => []
  | d :: rest =>
      match worker d with
      | (found, None) => found ++ gather worker rest
      | (_, Some _) => []
      end
  end.

(** find_venvs: the sequential mode lets the exception of the generator
    through; the parallel mode catches what is raised while [top_dirs] is
    built and while the results are collected. *)
Definition find_venvs (fs : node) (win32 : bool) (start_path : path)
    (max_depth : Z) (exclude_dirs : list string) (parallel : bool)
    : result (list path) :=
  let exclude_set := Finder.exclude_set win32 exclude_dirs in
  if negb parallel then
    match find_venvs_in_dir fs start_path max_depth exclude_set with
    | (found, None) => Ok found
    | (_, Some e) => Raise e
    end
  else
    match Access.iterdir sealed fs start_path with
    | Some items =>
        match top_dirs fs exclude_set items with
        | Some dirs =>
            Ok (gather (λ d, find_venvs_in_dir fs d (max_depth - 1) exclude_set) dirs)
        | None => Ok []
        end
    | None => Ok []
    end.

End Scan.

End FinderAccess.

(** ** cleaner.py, with search permission *)

Module CleanerAccess.
Import FS Access Cleaner.

(** safe_delete_venv: the test of line 20 is outside every [try], so that
    the PermissionError of exists() and is_dir() leaves the function.  Once
    the test has passed, the directory is deleted as [Cleaner] describes:
    below it, what a missing permission does to a system call is given by
    the flags of the nodes. *)
Definition safe_delete_venv (sealed : gset path) (fs : node) (venv_path : path)
    (progress_callback : option byte_callback) : result outcome :=
  match Access.exists_ sealed fs venv_path with
  | Raise e => Raise e
  | Ok false =>
      Ok (Outcome false ("Directory does not exist: " +:+ str_path venv_path) fs [])
  | Ok true =>
      match Access.is_dir sealed fs venv_path with
      | Raise e => Raise e
      | Ok false =>
          Ok (Outcome false ("Directory does not exist: " +:+ str_path venv_path) fs [])
      | Ok true => Ok (Cleaner.safe_delete_venv fs venv_path progress_callback)
      end
  end.

Section Batch.
Variable sealed : gset path.
Variable format_percent : N → N → string.

(** The loop of delete_multiple_venvs: nothing in it handles an exception
    of safe_delete_venv. *)
Fixpoint delete_loop (progress_callback : option batch_callback)
    (total_venvs : nat) (venv_paths : list path) (fs : node)
    (venvs_deleted : nat) (bytes_freed : N)
    (failures : list (path * string)) : batch_result :=
  match venv_paths with
  | [] => Returned fs venvs_deleted bytes_freed failures
  | venv_path :: rest =>
      match
        match progress_callback with
        | Some f => f venvs_deleted total_venvs (str_path venv_path)
        | None => None
        end
      with
      | Some e => Raised fs e
      | None =>
          let venv_size := dir_size fs venv_path in
          match
            safe_delete_venv sealed fs venv_path
              (Some (venv_progress format_percent progress_callback
                       venvs_deleted total_venvs venv_path))
          with
          | Raise e => Raised fs e
          | Ok out =>
              if success out then
                delete_loop progress_callback total_venvs rest (fs_after out)
                  (S venvs_deleted) (bytes_freed + venv_size) failures
              else
                delete_loop progress_callback total_venvs rest (fs_after out)
                  venvs_deleted bytes_freed (failures ++ [(venv_path, detail out)])
          end
      end
  end.

Definition delete_multiple_venvs (fs : node) (venv_paths : list path)
    (progress_callback : option batch_callback) : batch_result :=
  delete_loop progress_callback (length venv_paths) venv_paths fs 0 0 [].

End Batch.

End CleanerAccess.

(** ** File systems used in the examples *)

Module Examples.
Import FS.

Definition file (size : N) : node := File size true true.
Definition dir (es : list (string * node)) : node := Dir true true es.
Definition venv : node := dir [("pyvenv.cfg", file 70)].

(** /proj holds an environment and a hidden tool directory with another. *)
Definition fs_hidden : node :=
  dir [("proj", dir [(".tox", dir [("py39", venv)]); ("venv", venv)])].

(** /proj/venv is an environment with an environment inside. *)
Definition fs_nested : node :=
  dir [("proj", dir [("venv", dir [("pyvenv.cfg", file 70); ("inner", venv)])])].

(** A project kept below a directory called dev. *)
Definition fs_dev : node :=
  dir [("home", dir [("dev", dir [("proj", dir [("venv", venv)])])])].

(** The layout of tests/test_finder.py. *)
Definition fs_test : node :=
  dir [("tmp",
        dir [("project1", dir [("venv", venv)]);
             ("project2", dir [(".venv", dir [("bin", dir [("activate", file 23)])])]);
             ("not_a_venv", dir []);
             ("requirements.txt", file 24)])].

(** /v holds a file that can be deleted and one that cannot. *)
Definition fs_locked : node :=
  dir [("v", dir [("a", file 10); ("b", File 20 true false)])].

(** /v holds four files, none of which can be deleted. *)
Definition fs_all_locked : node :=
  dir [("v", dir [("a", File 1 true false); ("b", File 2 true false);
                  ("c", File 3 false true); ("d", File 4 true false)])].

(** /v is an environment of empty files; /w is an ordinary one. *)
Definition fs_empty_files : node :=
  dir [("v", dir [("pyvenv.cfg", file 0); ("lib", dir [("x", file 0)])]);
       ("w", dir [("pyvenv.cfg", file 70); ("lib", dir [("x", file 5)])])].

(** /locked has mode 000 and holds an environment; /s holds a directory of
    mode 000, listed first, and an environment; /w is an environment;
    /home/proj holds one. *)
Definition fs_sealed : node :=
  dir [("locked", Dir false true [("venv", venv)]);
       ("s", dir [("aaa", Dir false true []); ("venv", venv)]);
       ("w", venv);
       ("home", dir [("proj", dir [("venv", venv)])])].

Definition sealed_dirs : gset path := {[ ["locked"]; ["s"; "aaa"] ]}.

(** One order in which Python goes through VENV_IDENTIFIERS. *)
Definition identifier_order : list string :=
  [ "Scripts/activate"; "bin/activate"; "bin/python";
    "Scripts/python.exe"; "pyvenv.cfg" ].

Definition quiet : N → N → option FS.exn := λ _ _, None.
Definition quiet_batch : nat → nat → string → option FS.exn := λ _ _ _, None.
(** The percentage rounded to the nearest integer, ties to the even one,
    as [:.0f] rounds; computed on the exact quotient. *)
Definition percent_text : N → N → string :=
  λ b t,
    let q := (b * 100 / t)%N in
    let r := (b * 100 mod t)%N in
    pretty (if (2 * r <? t)%N then q
            else if (t <? 2 * r)%N then (q + 1)%N
            else if N.even q then q else (q + 1)%N).

End Examples.

(** ** Quantities and invariants used in the proofs *)

Module Invariants.
Import FS Cleaner.

(** The state after one iteration of [for file in files] and of
    [for dir in dirs]. *)
Definition file_step (cb : option byte_callback) (total : N) (root : path)
    (e : string * node) (st : progress) : progress :=
  match raised st, e.2 with
  | None, File sz s u => (delete_file cb total root e.1 sz s u st).2
  | _, _ => st
  end.

Definition dir_step (root : path) (e : string * node) (st : progress) : progress :=
  match raised st, e.2 with
  | None, Dir _ _ _ =>
      match rmdir (root ++ [e.1]) e.2 with
      | None => st
      | Some err => add_error (dir_error (root ++ [e.1]) err) st
      end
  | _, _ => st
  end.

(** A sequence that never decreases. *)
Definition nondecreasing (l : list N) : Prop :=
  ∀ i j a b, i ≤ j → l !! i = Some a → l !! j = Some b → (a ≤ b)%N.

(** The calls made so far are in order and none is ahead of
    [bytes_removed]. *)
Definition calls_in_order (st : progress) : Prop :=
  nondecreasing (calls st).*1 ∧
  ∀ b, b ∈ (calls st).*1 → (b ≤ bytes_removed st)%N.

(** [raised] is set by the last progress call only, with an exception
    that is not an OSError. *)
Definition raised_by_callback (cb : option byte_callback) (st : progress) : Prop :=
  ∀ e, raised st = Some e →
    ∃ f c, cb = Some f ∧ last (calls st) = Some c ∧
           f c.1 c.2 = Some e ∧ is_oserror e = false.


(** No exception so far, or [e0]. *)
Definition only_e0 (e0 : exn) (st : progress) : Prop :=
  ∀ e, raised st = Some e → e = e0.

(** No call so far, or one call that raised. *)
Definition one_call (total : N) (e0 : exn) (st : progress) : Prop :=
  (calls st = [] ∧ raised st = None) ∨
  (∃ b, calls st = [(b, total)] ∧ raised st = Some e0).

End Invariants.

(** ** Quantities used to state further properties *)

Module Measures.
Import FS Finder Cleaner.

(** A child name that the loop of find_venvs_in_dir descends into: not
    hidden, or hidden and on the allow-list. *)
Definition visible (c : string) : Prop :=
  startswith_dot c = true → lower c ∈ hidden_allow_list.



(** The bytes of all the files below a node. *)
Fixpoint total_bytes (n : node) : N :=
  match n with
  | File sz _ _ => sz
  | Dir _ _ es => fold_right (λ e acc, (total_bytes e.2 + acc)%N) 0%N es
  end.

(** Every system call on the node and below it succeeds. *)
Fixpoint all_ok (n : node) : bool :=
  match n with
  | File _ s u => s && u
  | Dir l r es => l && r && forallb (λ e, all_ok e.2) es
  end.

(** Every directory can be listed and every file can be stat'ed. *)
Fixpoint all_readable (n : node) : bool :=
  match n with
  | File _ s _ => s
  | Dir l _ es => l && forallb (λ e, all_readable e.2) es
  end.

(** What the size walk adds for the files of a listing, and for its
    subdirectories. *)
Definition files_size (es : list (string * node)) : N :=
  fold_right (λ e acc, match e.2 with
                       | File sz true _ => (sz + acc)%N
                       | _ => acc
                       end) 0%N es.

Definition subdirs_size (es : list (string * node)) : N :=
  fold_right (λ e acc, (walk_size e.2 0 + acc)%N) 0%N es.

(** A progress callback that raises nothing but OSError, and one that
    never raises. *)
Definition tame (cb : option byte_callback) : Prop :=
  ∀ f b t e, cb = Some f → f b t = Some e → is_oserror e = true.

Definition silent (cb : option byte_callback) : Prop :=
  ∀ f b t, cb = Some f → f b t = None.

(** A file that can be deleted, or an empty directory that can be removed. *)
Definition ready (n : node) : Prop :=
  match n with
  | File _ s u => s && u = true
  | Dir _ r es => r = true ∧ es = []
  end.

(** From [st] to [st'] no error was recorded, no exception escaped and
    [added] bytes were removed. *)
Definition clean_from (st st' : progress) (added : N) : Prop :=
  errors st' = errors st ∧ raised st' = None ∧
  bytes_removed st' = (bytes_removed st + added)%N.

(** The entries that are left hold no file that could have been deleted. *)
Definition spent (e : string * node) : Prop := has_deletable_file e.2 = false.
Definition spent_dir (e : string * node) : Prop :=
  match e.2 with Dir _ _ _ => has_deletable_file e.2 = false | File _ _ _ => True end.

(** Every error message recorded so far begins with "Error". *)
Definition worded (st : progress) : Prop :=
  ∀ x, x ∈ errors st → ∃ rest, x = "Error" +:+ rest.

(** Two states that differ in the progress calls at most. *)
Definition same_but_calls (st st' : progress) : Prop :=
  bytes_removed st = bytes_removed st' ∧ errors st = errors st' ∧
  raised st = raised st'.

(** Two results of delete_multiple_venvs, one after the other. *)
Definition batch_then (r1 : batch_result) (r2 : node → batch_result) : batch_result :=
  match r1 with
  | Returned fs1 d1 b1 fl1 =>
      match r2 fs1 with
      | Returned fs2 d2 b2 fl2 => Returned fs2 (d1 + d2) (b1 + b2) (fl1 ++ fl2)
      | Raised fs2 e => Raised fs2 e
      end
  | Raised fs1 e => Raised fs1 e
  end.

(** The file system that delete_multiple_venvs leaves. *)
Definition batch_fs (r : batch_result) : node :=
  match r with Returned fs _ _ _ | Raised fs _ => fs end.

(** Neither path is a prefix of the other. *)
Definition apart (p q : path) : Prop :=
  ¬ p `prefix_of` q ∧ ¬ q `prefix_of` p.

End Measures.

(** ** Properties of the file system model *)

Module FSProofs.
Import FS.

(** Induction on nodes, with the hypothesis for the entries of a
    directory. *)
Lemma node_ind (P : node → Prop) :
  (∀ sz s u, P (File sz s u)) →
  (∀ l r es, Forall (λ e, P e.2) es → P (Dir l r es)) →
  ∀ n, P n.
Proof.
  intros Hf Hd. fix IH 1. intros [sz s u|l r es]; [apply Hf|]. apply Hd.
  induction es as [|[nm c] es IHes]; constructor; [apply IH|apply IHes].
Qed.

Lemma wf_Dir l r es :
  wf (Dir l r es) ↔ NoDup es.*1 ∧ Forall (λ e, wf e.2) es.
Proof.
  simpl. apply and_iff_compat_l.
  induction es as [|e es IH]; simpl; [by split; [constructor|]|].
  rewrite Forall_cons, IH. done.
Qed.

Lemma wf_b_sound n : wf_b n = true → wf n.
Proof.
  induction n as [sz s u|l r es IH] using node_ind; [done|].
  simpl wf_b. intros [Hnodup Hall]%andb_true_iff. apply wf_Dir.
  split; [by apply bool_decide_eq_true in Hnodup|].
  rewrite forallb_forall in Hall. rewrite Forall_forall in IH |- *.
  intros e He. apply IH; [done|]. by apply Hall, list_elem_of_In.
Qed.

Lemma lookup_entry_None c es : c ∉ es.*1 → lookup_entry c es = None.
Proof.
  induction es as [|[nm n] es IH]; [done|]. simpl.
  intros Hc. case_decide; [by destruct Hc; subst; left|].
  apply IH. intros ?. apply Hc. by right.
Qed.

Lemma lookup_entry_elem_of c es n : lookup_entry c es = Some n → (c, n) ∈ es.
Proof.
  induction es as [|[nm n'] es IH]; [done|]. simpl.
  case_decide; [intros [=]; subst; left|]. intros ?. right. auto.
Qed.

Lemma lookup_alter_entry f c es :
  NoDup es.*1 → lookup_entry c (alter_entry f c es) = lookup_entry c es ≫= f.
Proof.
  induction es as [|[nm n] es IH]; [done|]. simpl.
  intros [Hnm Hes]%NoDup_cons. case_decide; simpl.
  - subst. destruct (f n); simpl; [by rewrite decide_True|].
    by apply lookup_entry_None.
  - rewrite decide_False by done. auto.
Qed.

(** Once removed, a path no longer resolves. *)
Lemma resolve_update_None p : ∀ n,
  wf n → p ≠ [] → resolve (update p None n) p = None.
Proof.
  induction p as [|c p IH]; intros n Hwf Hp; [done|].
  destruct n as [sz s u|l r es]; [done|].
  apply wf_Dir in Hwf as [Hnodup Hwf]. simpl.
  rewrite lookup_alter_entry by done.
  destruct (lookup_entry c es) as [ch|] eqn:Hch; [|done]. simpl.
  destruct p as [|c' p]; [done|]. simpl (Some _ ≫= _).
  apply IH; [|done].
  apply lookup_entry_elem_of in Hch. rewrite Forall_forall in Hwf.
  by apply (Hwf (c, ch)).
Qed.

Lemma wf_resolve p : ∀ fs n, wf fs → resolve fs p = Some n → wf n.
Proof.
  induction p as [|c p IH]; intros fs n Hwf; [by intros [= <-]|].
  destruct fs as [sz s u|l r es]; [done|]. simpl.
  destruct (lookup_entry c es) as [ch|] eqn:Hch; [|done]. simpl.
  apply IH. apply wf_Dir in Hwf as [_ Hwf]. rewrite Forall_forall in Hwf.
  by apply (Hwf (c, ch)), lookup_entry_elem_of.
Qed.

(** A directory lists each child once. *)
Lemma iterdir_NoDup fs p items :
  wf fs → iterdir fs p = Some items → NoDup items.
Proof.
  unfold iterdir. intros Hwf Hit.
  destruct (resolve fs p) as [[|[] r es]|] eqn:Hres; simplify_eq.
  apply (wf_resolve _ _ _ Hwf), wf_Dir in Hres as [Hnodup _].
  change (NoDup ((λ c, p ++ [c]) ∘ fst <$> es)). rewrite list_fmap_compose.
  apply NoDup_fmap_2; [|done].
  intros c c' Heq. apply app_inv_head in Heq. by simplify_eq.
Qed.

End FSProofs.

(** A decidable closed goal, settled by evaluating its decision procedure. *)
Ltac decide_by_compute := apply (bool_decide_unpack _); vm_compute; exact I.

(** ** Properties of finder.py *)

Module FinderProofs.
Import FS Finder Examples FSProofs.

Lemma name_snoc (p : path) (c : string) : name (p ++ [c]) = c.
Proof. unfold name. by rewrite last_snoc. Qed.

Lemma elem_of_flat_map {A B} (f : A → list B) (l : list A) (y : B) :
  y ∈ flat_map f l ↔ ∃ x, x ∈ l ∧ y ∈ f x.
Proof.
  rewrite list_elem_of_In, in_flat_map.
  split; intros (x & Hx & Hy); exists x; by rewrite ?list_elem_of_In in *.
Qed.

Lemma iterdir_child fs p items item :
  iterdir fs p = Some items → item ∈ items → ∃ c, item = p ++ [c].
Proof.
  unfold iterdir. intros Hit Hin.
  destruct (resolve fs p) as [[|[] r es]|]; simplify_eq.
  apply list_elem_of_fmap in Hin as (e & -> & _). by exists e.1.
Qed.

(** One unfolding of the recursion. *)
Lemma find_venvs_in_dir_depth_eq fs depth excl directory :
  find_venvs_in_dir_depth fs depth excl directory =
  if bool_decide (name directory ∈ excl) then []
  else if is_virtual_env fs directory then [directory]
  else match depth with
       | O => []
       | S depth' =>
           match iterdir fs directory with
           | Some items =>
               flat_map (λ item,
                   if eligible fs item
                   then find_venvs_in_dir_depth fs depth' excl item
                   else []) items
           | None => []
           end
       end.
Proof. by destruct depth. Qed.

(** How a result is reached: either the directory itself is the result, or
    the result comes from an eligible child. *)
Lemma find_venvs_in_dir_depth_inv fs depth excl directory p :
  p ∈ find_venvs_in_dir_depth fs depth excl directory →
  (name directory ∉ excl) ∧
  ((p = directory ∧ is_virtual_env fs directory = true) ∨
   (is_virtual_env fs directory = false ∧
    ∃ depth' c, depth = S depth' ∧ eligible fs (directory ++ [c]) = true ∧
      p ∈ find_venvs_in_dir_depth fs depth' excl (directory ++ [c]))).
Proof.
  rewrite find_venvs_in_dir_depth_eq.
  case_bool_decide as Hex; [by intros ?%elem_of_nil|].
  destruct (is_virtual_env fs directory) eqn:Hv.
  - intros ->%list_elem_of_singleton. auto.
  - destruct depth as [|depth']; [by intros ?%elem_of_nil|].
    destruct (iterdir fs directory) as [items|] eqn:Hit; [|by intros ?%elem_of_nil].
    intros (item & Hitem & Hp)%elem_of_flat_map.
    destruct (iterdir_child _ _ _ _ Hit Hitem) as [c ->].
    destruct (eligible fs (directory ++ [c])) eqn:He; [|by apply elem_of_nil in Hp].
    split; [done|]. right. split; [done|]. by exists depth', c.
Qed.

(** Every result is a recognized environment. *)
Lemma find_venvs_in_dir_depth_recognized fs depth excl : ∀ directory p,
  p ∈ find_venvs_in_dir_depth fs depth excl directory →
  is_virtual_env fs p = true.
Proof.
  induction depth as [|depth IH]; intros directory p Hp;
    apply find_venvs_in_dir_depth_inv in Hp
      as [_ [[-> ?]|[_ (depth' & c & ? & _ & Hp)]]]; simplify_eq; eauto.
Qed.

(** Every result lies at or below the directory scanned, and neither the
    name of that directory nor a component below it is excluded. *)
Lemma find_venvs_in_dir_depth_below fs depth excl : ∀ directory p,
  p ∈ find_venvs_in_dir_depth fs depth excl directory →
  (name directory ∉ excl) ∧
  ∃ rel, p = directory ++ rel ∧ ∀ c, c ∈ rel → c ∉ excl.
Proof.
  induction depth as [|depth IH]; intros directory p Hp;
    apply find_venvs_in_dir_depth_inv in Hp
      as [Hn [[-> ?]|[_ (depth' & c & ? & _ & Hp)]]]; simplify_eq;
    (split; [done|]).
  - exists []. split; [by rewrite app_nil_r|]. by intros c ?%elem_of_nil.
  - exists []. split; [by rewrite app_nil_r|]. by intros c ?%elem_of_nil.
  - apply IH in Hp as (Hc & rel & -> & Hrel). rewrite name_snoc in Hc.
    exists (c :: rel). split; [by rewrite <-app_assoc|].
    intros c' [->|?]%elem_of_cons; auto.
Qed.

(** No result lies strictly inside a recognized directory that is at or
    below the directory scanned. *)
Lemma find_venvs_in_dir_depth_not_inside fs depth excl : ∀ directory rel rel',
  directory ++ rel ++ rel' ∈ find_venvs_in_dir_depth fs depth excl directory →
  rel' ≠ [] →
  is_virtual_env fs (directory ++ rel) = false.
Proof.
  induction depth as [|depth IH]; intros directory rel rel' Hp Hne;
    apply find_venvs_in_dir_depth_inv in Hp
      as [_ [[Heq ?]|[Hv (depth' & c & ? & _ & Hp)]]]; simplify_eq.
  - apply (f_equal length) in Heq. rewrite !length_app in Heq.
    destruct rel'; [done|]. simpl in Heq. lia.
  - apply (f_equal length) in Heq. rewrite !length_app in Heq.
    destruct rel'; [done|]. simpl in Heq. lia.
  - destruct rel as [|c' rel]; [by rewrite app_nil_r|].
    pose proof Hp as (_ & rel0 & Hrel0 & _)%find_venvs_in_dir_depth_below.
    rewrite <- !app_assoc in Hrel0.
    apply app_inv_head in Hrel0. simpl in Hrel0. simplify_eq.
    replace (directory ++ c :: rel) with ((directory ++ [c]) ++ rel)
      by by rewrite <- app_assoc.
    apply (IH _ rel rel'); [|done].
    by rewrite <- !app_assoc.
Qed.



(** The two scenarios of tests/test_finder.py and of the specification. *)
Example is_virtual_env_test :
  is_virtual_env fs_test ["tmp"; "project1"; "venv"] = true ∧
  is_virtual_env fs_test ["tmp"; "project2"; ".venv"] = true ∧
  is_virtual_env fs_test ["tmp"; "not_a_venv"] = false ∧
  is_virtual_env fs_test ["tmp"; "requirements.txt"] = false.
Proof. done. Qed.

Lemma joinpath_req_pattern (p : path) (pattern : string) :
  pattern ∈ req_patterns → joinpath p pattern = p ++ [pattern].
Proof.
  unfold req_patterns. rewrite !elem_of_cons.
  intros [->|[->|[->|[->|[->|[->|?%elem_of_nil]]]]]]; done.
Qed.

Lemma parent_fixed (p : path) : parent p = p ↔ p = [].
Proof.
  split; [|by intros ->].
  destruct p as [|c p] using rev_ind; [done|].
  unfold parent. rewrite removelast_last. intros Heq.
  apply (f_equal length) in Heq. rewrite length_app in Heq. simpl in Heq. lia.
Qed.

Lemma iter_parent_nil (k : nat) : Nat.iter k parent [] = [].
Proof. induction k as [|k IH]; [done|]. simpl. by rewrite IH. Qed.

Lemma check_levels_elem_of fs count : ∀ d acc s,
  s ∈ check_levels fs count d acc ↔
  s ∈ acc ∨
  ∃ k pattern, k < count ∧ pattern ∈ req_patterns ∧
    exists_ fs (Nat.iter k parent d ++ [pattern]) = true ∧
    s = str_path (Nat.iter k parent d ++ [pattern]).
Proof.
  induction count as [|count IH]; intros d acc s.
  { simpl. split; [auto|]. intros [?|(k & ? & ? & _)]; [done|lia]. }
  assert (Hhere : ∀ s,
    s ∈ (λ pattern, str_path (joinpath d pattern)) <$>
          filter (λ pattern, exists_ fs (joinpath d pattern) = true) req_patterns ↔
    ∃ pattern, pattern ∈ req_patterns ∧ exists_ fs (d ++ [pattern]) = true ∧
      s = str_path (d ++ [pattern])).
  { intros s'. rewrite list_elem_of_fmap. split.
    - intros (pat & -> & [He Hin]%list_elem_of_filter).
      rewrite joinpath_req_pattern in * by done. eauto.
    - intros (pat & Hin & He & ->). exists pat.
      rewrite list_elem_of_filter, !joinpath_req_pattern by done. auto. }
  simpl. case_decide as Hroot.
  - apply parent_fixed in Hroot as ->.
    rewrite elem_of_app, Hhere. split.
    + intros [?|(pat & ? & ? & ->)]; [auto|].
      right. exists 0, pat. simpl. split_and!; [lia|done..].
    + intros [?|(k & pat & _ & ? & He & ->)]; [auto|].
      rewrite iter_parent_nil in *. eauto.
  - rewrite IH, elem_of_app, Hhere. split.
    + intros [[?|(pat & ? & ? & ->)]|(k & pat & ? & ? & He & ->)]; [auto| |].
      * right. exists 0, pat. simpl. split_and!; [lia|done..].
      * right. exists (S k), pat. rewrite Nat.iter_succ_r.
        split_and!; [lia|done..].
    + intros [?|(k & pat & ? & ? & He & ->)]; [auto|].
      destruct k as [|k].
      * left. right. simpl in *. eauto.
      * right. exists k, pat. rewrite Nat.iter_succ_r in *.
        split_and!; [lia|done..].
Qed.

(** The six manifest names, one by one. *)
Lemma elem_of_req_patterns (pattern : string) :
  pattern ∈ req_patterns ↔
  pattern = "requirements.txt" ∨ pattern = "pyproject.toml" ∨
  pattern = "Pipfile" ∨ pattern = "setup.py" ∨
  pattern = "poetry.lock" ∨ pattern = "Pipfile.lock".
Proof.
  unfold req_patterns. rewrite !elem_of_cons, elem_of_nil. tauto.
Qed.

(** C7: has_requirement_files returns exactly the files called
    requirements.txt, pyproject.toml, Pipfile, setup.py, poetry.lock or
    Pipfile.lock that exist in the directory, its parent or its grandparent
    ([parent] of the root is the root), and the flag says whether there is
    one. *)
Theorem has_requirement_files_exact (fs : node) (d : path) :
  (∀ s, s ∈ (has_requirement_files fs d).2 ↔
     ∃ k pattern, k < 3 ∧
       (pattern = "requirements.txt" ∨ pattern = "pyproject.toml" ∨
        pattern = "Pipfile" ∨ pattern = "setup.py" ∨
        pattern = "poetry.lock" ∨ pattern = "Pipfile.lock") ∧
       exists_ fs (Nat.iter k parent d ++ [pattern]) = true ∧
       s = str_path (Nat.iter k parent d ++ [pattern])) ∧
  ((has_requirement_files fs d).1 = true ↔ (has_requirement_files fs d).2 ≠ []).
Proof.
  split.
  - intros s. unfold has_requirement_files. cbn [snd].
    rewrite check_levels_elem_of. split.
    + intros [?%elem_of_nil|(k & pat & ? & ?%elem_of_req_patterns & ?)]; [done|].
      by exists k, pat.
    + intros (k & pat & ? & ?%elem_of_req_patterns & ?). right. by exists k, pat.
  - unfold has_requirement_files. cbn [fst snd].
    by rewrite bool_decide_eq_true.
Qed.

(** In the layout of tests/test_finder.py the manifest of /tmp is found from
    the environment of project1, two levels up, and a file with another
    name is not reported. *)
Lemma has_requirement_files_exact_witness :
  "/tmp/requirements.txt" ∈ (has_requirement_files fs_test ["tmp"; "project1"; "venv"]).2 ∧
  "/tmp/project1/venv/pyvenv.cfg"
    ∉ (has_requirement_files fs_test ["tmp"; "project1"; "venv"]).2.
Proof.
  split.
  - apply (proj1 (has_requirement_files_exact fs_test ["tmp"; "project1"; "venv"])).
    exists 2, "requirements.txt". split; [lia|]. split; [by left|]. by split.
  - intros Hin.
    apply (proj1 (has_requirement_files_exact fs_test ["tmp"; "project1"; "venv"]))
      in Hin as (k & pat & Hk & Hpat & _ & Heq).
    destruct k as [|[|[|k]]]; [| | |lia];
      destruct Hpat as [->|[->|[->|[->|[->| ->]]]]]; discriminate Heq.
Defined.

(** At the root the loop stops after the first level: nothing is listed
    twice. *)
Example has_requirement_files_test :
  has_requirement_files fs_test ["tmp"; "project1"; "venv"]
    = (true, ["/tmp/requirements.txt"]) ∧
  has_requirement_files fs_test ["tmp"; "project1"] = (true, ["/tmp/requirements.txt"]) ∧
  has_requirement_files fs_test ["tmp"; "project1"; "venv"; "lib"] = (false, []) ∧
  has_requirement_files
    (dir [("setup.py", file 9); ("a", dir [])]) [] = (true, ["/setup.py"]).
Proof. done. Qed.

(** *** Sequential and parallel scans *)




(** C1: a hidden directory right below the start directory is skipped by
    the sequential scan and searched by the parallel one. *)
Theorem find_venvs_parallel_searches_hidden_top_dir :
  find_venvs fs_hidden false ["proj"] 5 [] false = [["proj"; "venv"]] ∧
  find_venvs fs_hidden false ["proj"] 5 [] true
    = [["proj"; ".tox"; "py39"]; ["proj"; "venv"]] ∧
  ¬ (∀ p, p ∈ find_venvs fs_hidden false ["proj"] 5 [] true ↔
          p ∈ find_venvs fs_hidden false ["proj"] 5 [] false).
Proof.
  assert (Hs : find_venvs fs_hidden false ["proj"] 5 [] false = [["proj"; "venv"]])
    by by vm_compute.
  assert (Hp : find_venvs fs_hidden false ["proj"] 5 [] true
               = [["proj"; ".tox"; "py39"]; ["proj"; "venv"]]) by by vm_compute.
  split_and!; [done..|]. rewrite Hs, Hp. intros Hsame.
  specialize (Hsame ["proj"; ".tox"; "py39"]).
  rewrite list_elem_of_singleton in Hsame.
  assert (["proj"; ".tox"; "py39"] = ["proj"; "venv"]) as [=].
  apply Hsame. left.
Qed.

(** The other places where the two modes part: the depth budget 0, and a
    start directory whose own name is excluded. *)
Example find_venvs_parallel_differs_elsewhere :
  find_venvs fs_test false ["tmp"; "project1"] 0 [] false = [] ∧
  find_venvs fs_test false ["tmp"; "project1"] 0 [] true
    = [["tmp"; "project1"; "venv"]] ∧
  find_venvs fs_test false ["tmp"; "project1"] 5 ["project1"] false = [] ∧
  find_venvs fs_test false ["tmp"; "project1"] 5 ["project1"] true
    = [["tmp"; "project1"; "venv"]].
Proof. split_and!; by vm_compute. Qed.

(** The scan of tests/test_finder.py. *)
Example find_venvs_test :
  find_venvs fs_test false ["tmp"] 5 [] false
    = [["tmp"; "project1"; "venv"]; ["tmp"; "project2"; ".venv"]].
Proof. by vm_compute. Qed.

(** The sequential scan never returns a path strictly inside a recognized
    directory at or below the start directory. *)
Lemma find_venvs_sequential_not_inside fs win32 start max_depth excl rel rel' :
  start ++ rel ++ rel' ∈ find_venvs fs win32 start max_depth excl false →
  rel' ≠ [] →
  is_virtual_env fs (start ++ rel) = false.
Proof. apply find_venvs_in_dir_depth_not_inside. Qed.

(** The parallel scan keeps that promise for the directories strictly
    below the start directory only. *)
Lemma find_venvs_parallel_not_inside fs win32 start max_depth excl rel rel' :
  start ++ rel ++ rel' ∈ find_venvs fs win32 start max_depth excl true →
  rel ≠ [] → rel' ≠ [] →
  is_virtual_env fs (start ++ rel) = false.
Proof.
  unfold find_venvs, find_venvs_in_dir. cbn [negb].
  destruct (iterdir fs start) as [items|] eqn:Hit; [|by intros ?%elem_of_nil].
  intros (item & [_ Hitem]%list_elem_of_filter & Hp)%elem_of_flat_map Hrel Hrel'.
  destruct (iterdir_child _ _ _ _ Hit Hitem) as [c ->].
  pose proof Hp as (_ & rel0 & Hrel0 & _)%find_venvs_in_dir_depth_below.
  destruct rel as [|c' rel]; [done|].
  rewrite <- !app_assoc in Hrel0. apply app_inv_head in Hrel0.
  simpl in Hrel0. simplify_eq.
  replace (start ++ c :: rel) with ((start ++ [c]) ++ rel)
    by by rewrite <- app_assoc.
  eapply find_venvs_in_dir_depth_not_inside; [|done].
  by rewrite <- !app_assoc.
Qed.

Lemma flat_map_children_NoDup (f : path → list path) (directory : path)
    (items : list path) :
  (∀ item, item ∈ items → ∃ c, item = directory ++ [c]) →
  (∀ item y, y ∈ f item → ∃ rel, y = item ++ rel) →
  (∀ item, NoDup (f item)) →
  NoDup items → NoDup (flat_map f items).
Proof.
  intros Hchild Hbelow Hf Hitems.
  replace (flat_map f items) with (items ≫= f)
    by (clear; induction items as [|x items IH]; [done|]; csimpl; by rewrite IH).
  apply NoDup_bind; [|done..].
  intros x1 x2 y [c1 ->]%Hchild [c2 ->]%Hchild [rel1 ->]%Hbelow [rel2 Heq]%Hbelow.
  rewrite <- !app_assoc in Heq. apply app_inv_head in Heq. by simplify_eq/=.
Qed.

(** With unique entry names, a directory is returned at most once. *)
Lemma find_venvs_in_dir_depth_NoDup fs depth excl :
  wf fs → ∀ directory, NoDup (find_venvs_in_dir_depth fs depth excl directory).
Proof.
  intros Hwf. induction depth as [|depth IH]; intros directory;
    rewrite find_venvs_in_dir_depth_eq; case_bool_decide; try apply NoDup_nil_2;
    destruct (is_virtual_env fs directory); try apply NoDup_singleton;
    try apply NoDup_nil_2.
  destruct (iterdir fs directory) as [items|] eqn:Hit; [|apply NoDup_nil_2].
  apply (flat_map_children_NoDup _ directory).
  - intros item ?. by eapply iterdir_child.
  - intros item y. destruct (eligible fs item); [|by intros ?%elem_of_nil].
    intros (_ & rel & -> & _)%find_venvs_in_dir_depth_below. by exists rel.
  - intros item. destruct (eligible fs item); [apply IH|apply NoDup_nil_2].
  - by eapply iterdir_NoDup.
Qed.

Lemma find_venvs_NoDup fs win32 start max_depth excl parallel :
  wf fs → NoDup (find_venvs fs win32 start max_depth excl parallel).
Proof.
  intros Hwf. unfold find_venvs, find_venvs_in_dir.
  destruct parallel; cbn [negb]; [|by apply find_venvs_in_dir_depth_NoDup].
  destruct (iterdir fs start) as [items|] eqn:Hit; [|apply NoDup_nil_2].
  apply (flat_map_children_NoDup _ start).
  - intros item [_ ?]%list_elem_of_filter. by eapply iterdir_child.
  - intros item y (_ & rel & -> & _)%find_venvs_in_dir_depth_below. by exists rel.
  - intros item. by apply find_venvs_in_dir_depth_NoDup.
  - apply NoDup_filter. by eapply iterdir_NoDup.
Qed.

(** C3: started on a directory that is itself an environment, the parallel
    scan goes into it and returns the environment inside; the sequential
    scan returns the start directory alone. *)
Theorem find_venvs_parallel_enters_start_environment :
  is_virtual_env fs_nested ["proj"; "venv"] = true ∧
  find_venvs fs_nested false ["proj"; "venv"] 5 [] true
    = [["proj"; "venv"; "inner"]] ∧
  find_venvs fs_nested false ["proj"; "venv"] 5 [] false = [["proj"; "venv"]].
Proof. split_and!; by vm_compute. Qed.

(** The claim of C5 as it is written fails: the components of the start
    directory itself are never compared with the excluded names. *)
Lemma find_venvs_result_under_excluded_name :
  ¬ (∀ fs win32 start max_depth excl parallel (E : string) (p : path),
       E ∈ exclude_set win32 excl →
       p ∈ find_venvs fs win32 start max_depth excl parallel →
       E ∉ p).
Proof.
  intros Hclaim.
  apply (Hclaim fs_dev false ["home"; "dev"; "proj"] 5%Z [] false "dev"
           ["home"; "dev"; "proj"; "venv"]).
  - decide_by_compute.
  - decide_by_compute.
  - decide_by_compute.
Qed.

(** C5, amended: below the start directory no component of a result is an
    excluded name, in either mode. *)
Theorem find_venvs_excluded_below_start fs win32 start max_depth excl parallel
    (E : string) (p : path) :
  E ∈ exclude_set win32 excl →
  p ∈ find_venvs fs win32 start max_depth excl parallel →
  ∃ rel, p = start ++ rel ∧ E ∉ rel.
Proof.
  intros HE. unfold find_venvs, find_venvs_in_dir.
  destruct parallel; cbn [negb].
  - destruct (iterdir fs start) as [items|] eqn:Hit; [|by intros ?%elem_of_nil].
    intros (item & [_ Hitem]%list_elem_of_filter & Hp)%elem_of_flat_map.
    destruct (iterdir_child _ _ _ _ Hit Hitem) as [c ->].
    apply find_venvs_in_dir_depth_below in Hp as (Hc & rel & -> & Hrel).
    rewrite name_snoc in Hc.
    exists (c :: rel). split; [by rewrite <- app_assoc|].
    intros [->|?]%elem_of_cons; [done|]. by eapply Hrel.
  - intros (_ & rel & -> & Hrel)%find_venvs_in_dir_depth_below.
    exists rel. split; [done|]. intros ?. by eapply Hrel.
Qed.

Lemma find_venvs_excluded_below_start_witness :
  ∃ rel, ["home"; "dev"; "proj"; "venv"] = ["home"; "dev"; "proj"] ++ rel ∧
         "dev" ∉ rel.
Proof.
  apply (find_venvs_excluded_below_start
           fs_dev false ["home"; "dev"; "proj"] 5 [] true "dev").
  - decide_by_compute.
  - decide_by_compute.
Defined.

End FinderProofs.

(** ** Properties of cleaner.py *)

Module CleanerProofs.
Import FS Cleaner Examples Invariants FSProofs.

Ltac destruct_let :=
  repeat match goal with
         | |- context [match ?x with (_, _) => _ end] => destruct x eqn:?; simpl
         end.

(** *** The state after each loop, step by step *)

Lemma delete_files_snd cb total root es st :
  (delete_files cb total root es st).2 = fold_left (λ st e, file_step cb total root e st) es st.
Proof.
  revert st. induction es as [|[nm c] es IH]; intros st; [done|].
  simpl. rewrite <- IH. unfold file_step. simpl.
  destruct (raised st), c; destruct_let; done.
Qed.

Lemma delete_dirs_snd root es st :
  (delete_dirs root es st).2 = fold_left (λ st e, dir_step root e st) es st.
Proof.
  revert st. induction es as [|[nm c] es IH]; intros st; [done|].
  simpl. rewrite <- IH. unfold dir_step. simpl.
  destruct (raised st), c; try destruct (rmdir _ _); destruct_let; done.
Qed.

Lemma walk_subdirs_snd walk root es st :
  (walk_subdirs walk root es st).2
  = fold_left (λ st e, (walk (root ++ [e.1]) e.2 st).2) es st.
Proof.
  revert st. induction es as [|[nm c] es IH]; intros st; [done|].
  simpl. rewrite <- IH. destruct_let; done.
Qed.

Lemma delete_walk_snd cb total root l r es st :
  (delete_walk cb total root (Dir l r es) st).2 =
  if l then
    let w := walk_subdirs (delete_walk cb total) root es st in
    let f := delete_files cb total root w.1 w.2 in
    (delete_dirs root f.1 f.2).2
  else st.
Proof. simpl. destruct l; simpl; [|done]. destruct_let; done. Qed.

Lemma fold_left_preserves {A B} (P : A → Prop) (f : A → B → A) (l : list B) (a : A) :
  (∀ a b, b ∈ l → P a → P (f a b)) → P a → P (fold_left f l a).
Proof.
  revert a. induction l as [|b l IH]; intros a Hf Ha; [done|].
  simpl. apply IH; [|apply Hf; [left|done]].
  intros a' b' ? ?. apply Hf; [by right|done].
Qed.

(** *** Invariants of the deletion walk *)

Section Preserve.
Context (cb : option byte_callback) (total : N) (P : progress → Prop).
Hypothesis P_file : ∀ root nm sz s u st,
  raised st = None → P st → P (delete_file cb total root nm sz s u st).2.
Hypothesis P_error : ∀ msg st, P st → P (add_error msg st).

Lemma file_step_preserves root e st : P st → P (file_step cb total root e st).
Proof.
  unfold file_step. destruct (raised st) eqn:?, e.2; auto.
Qed.

Lemma dir_step_preserves root e st : P st → P (dir_step root e st).
Proof.
  unfold dir_step. destruct (raised st), e.2; try destruct (rmdir _ _); auto.
Qed.

Lemma delete_files_preserves root es st :
  P st → P (delete_files cb total root es st).2.
Proof.
  rewrite delete_files_snd. apply fold_left_preserves.
  intros ????. by apply file_step_preserves.
Qed.

Lemma delete_dirs_preserves root es st : P st → P (delete_dirs root es st).2.
Proof.
  rewrite delete_dirs_snd. apply fold_left_preserves.
  intros ????. by apply dir_step_preserves.
Qed.

Lemma delete_walk_preserves n : ∀ root st,
  P st → P (delete_walk cb total root n st).2.
Proof.
  induction n as [sz s u|l r es IH] using node_ind; intros root st HP; [done|].
  rewrite delete_walk_snd. destruct l; [|done]. cbn zeta.
  apply delete_dirs_preserves, delete_files_preserves.
  rewrite walk_subdirs_snd. apply fold_left_preserves; [|done].
  intros st' e He ?. rewrite Forall_forall in IH. by apply IH.
Qed.

Lemma remove_root_preserves venv_path n st :
  P st → P (remove_root venv_path n st).2.
Proof.
  unfold remove_root.
  destruct (raised st), (rmdir venv_path n), (rmtree (str_path venv_path) venv_path n); simpl; auto.
Qed.
End Preserve.

Lemma deletion_preserves cb (P : progress → Prop) venv_path n :
  (∀ root nm sz s u st,
     raised st = None → P st →
     P (delete_file cb (walk_size n 0) root nm sz s u st).2) →
  (∀ msg st, P st → P (add_error msg st)) →
  P (Progress 0 [] [] None) →
  P (deletion venv_path n cb).2.
Proof.
  intros Hfile Herr Hinit. unfold deletion.
  destruct (delete_walk _ _ _ _ _) as [n' st] eqn:Hwalk.
  apply remove_root_preserves; [done|].
  change st with (n', st).2. rewrite <- Hwalk.
  by apply delete_walk_preserves.
Qed.

Lemma safe_delete_venv_dir fs venv_path cb l r es :
  resolve fs venv_path = Some (Dir l r es) →
  safe_delete_venv fs venv_path cb =
  let d := deletion venv_path (Dir l r es) cb in
  Outcome (report d.2).1 (report d.2).2 (update venv_path d.1 fs) (calls d.2).
Proof.
  intros Hres. unfold safe_delete_venv. rewrite Hres.
  destruct (deletion _ _ _) as [n st]. simpl. by destruct (report st).
Qed.

(** *** The progress calls *)

Lemma nondecreasing_snoc (l : list N) (x : N) :
  nondecreasing l → (∀ b, b ∈ l → (b ≤ x)%N) → nondecreasing (l ++ [x]).
Proof.
  intros Hl Hx i j a b Hij Hi Hj.
  destruct (decide (j < length l)) as [Hlt|Hge].
  - rewrite lookup_app_l in Hi, Hj by lia. eauto.
  - rewrite lookup_app_r in Hj by lia.
    destruct (j - length l) as [|k] eqn:Hk; [|by destruct k].
    simpl in Hj. simplify_eq.
    destruct (decide (i < length l)).
    + rewrite lookup_app_l in Hi by lia.
      apply Hx. by eapply list_elem_of_lookup_2.
    + rewrite lookup_app_r in Hi by lia.
      replace (i - length l) with 0 in Hi by lia. by simplify_eq/=.
Qed.

Lemma delete_file_calls_in_order cb total root nm sz s u st :
  calls_in_order st → calls_in_order (delete_file cb total root nm sz s u st).2.
Proof.
  intros [Hsorted Hbound]. unfold delete_file.
  destruct s; [|done]. destruct u; [|done]. cbn [negb].
  assert (Hcall : calls_in_order
            (add_call (bytes_removed (add_bytes sz st), total) (add_bytes sz st))).
  { split; simpl; rewrite fmap_app; simpl.
    - apply nondecreasing_snoc; [done|]. intros b ?%Hbound. lia.
    - intros b [?%Hbound| ->%list_elem_of_singleton]%elem_of_app; lia. }
  destruct cb as [f|]; simpl.
  - destruct (f _ _) as [[]|]; exact Hcall.
  - split; [done|]. simpl. intros b ?%Hbound. lia.
Qed.

(** C9: within one call of safe_delete_venv, the values of bytes_done
    passed to the progress callback never decrease from one call to a
    later one. *)
Theorem progress_calls_nondecreasing fs venv_path cb (i j : nat) (b1 b2 : N) :
  i ≤ j →
  (progress_calls (safe_delete_venv fs venv_path cb)).*1 !! i = Some b1 →
  (progress_calls (safe_delete_venv fs venv_path cb)).*1 !! j = Some b2 →
  (b1 ≤ b2)%N.
Proof.
  destruct (resolve fs venv_path) as [[sz s u|l r es]|] eqn:Hres.
  - unfold safe_delete_venv. rewrite Hres. simpl. by intros _ ?.
  - rewrite (safe_delete_venv_dir _ _ _ _ _ _ Hres). cbn zeta. cbn [progress_calls].
    assert (calls_in_order (deletion venv_path (Dir l r es) cb).2) as [Hs _].
    { apply deletion_preserves.
      - intros. by apply delete_file_calls_in_order.
      - done.
      - split; simpl; [by intros ???? _ ?|by intros b ?%elem_of_nil]. }
    apply Hs.
  - unfold safe_delete_venv. rewrite Hres. simpl. by intros _ ?.
Qed.

(** *** The result of safe_delete_venv *)

Lemma delete_file_raised_by_callback cb total root nm sz s u st :
  raised st = None → raised_by_callback cb (delete_file cb total root nm sz s u st).2.
Proof.
  intros Hnone e. unfold delete_file.
  destruct s; [|by simpl; rewrite Hnone]. destruct u; [|by simpl; rewrite Hnone].
  cbn [negb]. destruct cb as [f|]; [|by simpl; rewrite Hnone].
  destruct (f _ _) as [[m|m|m]|] eqn:Hf; simpl; rewrite ?Hnone; intros [=]; subst.
  - exists f, (bytes_removed st + sz, total)%N. by rewrite last_snoc.
  - exists f, (bytes_removed st + sz, total)%N. by rewrite last_snoc.
Qed.


Lemma deletion_raised_by_callback cb venv_path n :
  raised_by_callback cb (deletion venv_path n cb).2.
Proof.
  apply deletion_preserves.
  - intros. by apply delete_file_raised_by_callback.
  - done.
  - by intros ?.
Qed.




(** The other outcomes, evaluated. *)
Example safe_delete_venv_outcomes :
  (let out := safe_delete_venv fs_locked ["v"] (Some quiet) in
   (success out, detail out) = (true, "Partially deleted (2 errors)")) ∧
  (let out := safe_delete_venv fs_test ["tmp"; "project1"; "venv"] (Some quiet) in
   (success out, detail out) = (true, "")) ∧
  (let out := safe_delete_venv fs_test ["tmp"; "requirements.txt"] (Some quiet) in
   (success out, detail out)
   = (false, "Directory does not exist: /tmp/requirements.txt")) ∧
  (let out := safe_delete_venv fs_test ["tmp"; "project1"; "venv"]
                (Some (λ _ _, Some (OtherError "boom"))) in
   (success out, detail out) = (false, "Unexpected error during deletion: boom")).
Proof. split_and!; by vm_compute. Qed.

(** *** What is left on disk *)

Lemma delete_walk_dir cb total root l r es st :
  ∃ es', (delete_walk cb total root (Dir l r es) st).1 = Dir l r es'.
Proof. simpl. destruct l; simpl; [|by eexists]. destruct_let. by eexists. Qed.

Lemma rmtree_root l r es : ∀ filename, rmtree filename [] (Dir l r es) ≠ Removed.
Proof.
  simpl. destruct l; simpl; [|done].
  by destruct (rmtree_entries _ _ _) as [|[]].
Qed.

Lemma remove_root_clean p l r es st :
  raised (remove_root p (Dir l r es) st).2 = None →
  errors (remove_root p (Dir l r es) st).2 = [] →
  (remove_root p (Dir l r es) st).1 = None ∧ p ≠ [].
Proof.
  unfold remove_root. destruct (raised st) eqn:Hr; [simpl; congruence|].
  destruct (rmdir p (Dir l r es)) eqn:Hrmdir.
  - destruct (rmtree _ p (Dir l r es)) eqn:Hrm; simpl.
    + intros _ _. split; [done|]. intros ->. by apply rmtree_root in Hrm.
    + intros _ Herr. by destruct (errors st).
  - intros _ _. split; [done|]. intros ->. by vm_compute in Hrmdir.
Qed.

Lemma report_clean st :
  (report st).1 = true → (report st).2 = "" →
  raised st = None ∧ errors st = [].
Proof.
  unfold report. destruct (raised st); [done|].
  destruct (errors st); [done|]. by destruct (0 <? bytes_removed st)%N.
Qed.

Lemma clean_success_removes_path fs D cb :
  wf fs →
  success (safe_delete_venv fs D cb) = true →
  detail (safe_delete_venv fs D cb) = "" →
  exists_ (fs_after (safe_delete_venv fs D cb)) D = false.
Proof.
  intros Hwf.
  destruct (resolve fs D) as [[sz s u|l r es]|] eqn:Hres;
    try (unfold safe_delete_venv; rewrite Hres; simpl; done).
  rewrite (safe_delete_venv_dir _ _ _ _ _ _ Hres). cbn zeta.
  cbn [success detail fs_after].
  intros Hs Hd. destruct (report_clean _ Hs Hd) as [Hr Herr].
  unfold deletion in *.
  destruct (delete_walk cb _ D (Dir l r es) _) as [n' st'] eqn:Hwalk.
  destruct (delete_walk_dir cb (walk_size (Dir l r es) 0) D l r es
              (Progress 0 [] [] None)) as [es' Hn'].
  rewrite Hwalk in Hn'. simpl in Hn'. subst n'.
  destruct (remove_root_clean _ _ _ _ _ Hr Herr) as [-> HD].
  unfold exists_. by rewrite resolve_update_None.
Qed.

(** The claim of C2 as it is written fails: a partial deletion is
    reported as a success and leaves the directory in place. *)
Lemma safe_delete_venv_partial_success_keeps_directory :
  ¬ (∀ fs D cb,
       success (safe_delete_venv fs D cb) = true →
       exists_ (fs_after (safe_delete_venv fs D cb)) D = false).
Proof.
  intros Hclaim. specialize (Hclaim fs_locked ["v"] None).
  vm_compute in Hclaim. by specialize (Hclaim eq_refl).
Qed.

(** The loop over a batch is the loop over its first paths followed by the
    loop over the others, from the state that the first ones leave. *)
Lemma delete_loop_prefix fmt pcb total post : ∀ pre fs d b fl,
  delete_loop fmt pcb total (pre ++ post) fs d b fl =
  match delete_loop fmt pcb total pre fs d b fl with
  | Returned fs1 d1 b1 fl1 => delete_loop fmt pcb total post fs1 d1 b1 fl1
  | Raised fs1 e => Raised fs1 e
  end.
Proof.
  induction pre as [|path pre IH]; intros fs d b fl; [done|].
  simpl. destruct (match pcb with Some _ => _ | None => _ end); [done|].
  destruct (success _); apply IH.
Qed.

(** C2, amended: where directory entries have unique names, a path on which
    safe_delete_venv returns success with an empty detail no longer exists
    afterwards; and in any batch, whatever came before it, the turn of a
    path [D] adds to bytes_freed the size of [D] measured on the file
    system as it is when the turn begins if safe_delete_venv reports a
    success, and nothing if it reports a failure: never more than that
    size.  [fs] is the file system when the turn of [D] begins, [pre] the
    paths handled before and [post] the paths that follow. *)
Theorem safe_delete_venv_clean_success_removes fmt fs D cb pcb :
  wf fs →
  (success (safe_delete_venv fs D cb) = true →
   detail (safe_delete_venv fs D cb) = "" →
   exists_ (fs_after (safe_delete_venv fs D cb)) D = false) ∧
  (∀ total pre post fs0 d0 b0 fl0 d b fl,
     delete_loop fmt pcb total pre fs0 d0 b0 fl0 = Returned fs d b fl →
     (∀ f, pcb = Some f → f d total (str_path D) = None) →
     let out := safe_delete_venv fs D (Some (venv_progress fmt pcb d total D)) in
     let credited := if success out then dir_size fs D else 0%N in
     (credited ≤ dir_size fs D)%N ∧
     delete_loop fmt pcb total (pre ++ D :: post) fs0 d0 b0 fl0 =
     delete_loop fmt pcb total post (fs_after out)
       (if success out then S d else d) (b + credited)
       (if success out then fl else fl ++ [(D, detail out)])).
Proof.
  intros Hwf. split; [by apply clean_success_removes_path|].
  intros total pre post fs0 d0 b0 fl0 d b fl Hpre Hcb out credited.
  split; [subst credited; destruct (success out); lia|].
  rewrite delete_loop_prefix, Hpre. cbn [delete_loop].
  replace (match pcb with Some f => f d total (str_path D) | None => None end)
    with (@None exn) by (destruct pcb as [f|]; [by rewrite (Hcb f)|done]).
  fold out. subst credited. destruct (success out); [done|].
  by rewrite N.add_0_r.
Qed.

(** In the layout of tests/test_finder.py: the environment of project1 is
    gone after its deletion, and in the batch of the two environments the
    second one, deleted when one environment and 70 bytes are already
    counted, adds its 23 bytes. *)
Lemma safe_delete_venv_clean_success_removes_witness :
  exists_ fs_test ["tmp"; "project1"; "venv"] = true ∧
  exists_ (fs_after (safe_delete_venv fs_test ["tmp"; "project1"; "venv"] (Some quiet)))
    ["tmp"; "project1"; "venv"] = false ∧
  ∃ fs',
    delete_multiple_venvs percent_text fs_test
      [["tmp"; "project1"; "venv"]; ["tmp"; "project2"; ".venv"]] (Some quiet_batch)
    = Returned fs' 2 (70 + 23) [].
Proof.
  split; [reflexivity|]. split.
  - refine (proj1 (safe_delete_venv_clean_success_removes percent_text fs_test
              ["tmp"; "project1"; "venv"] (Some quiet) None _) _ _).
    + by apply wf_b_sound.
    + reflexivity.
    + reflexivity.
  - eexists.
    refine (proj2 (proj2 (safe_delete_venv_clean_success_removes percent_text
              (fs_after (safe_delete_venv fs_test ["tmp"; "project1"; "venv"] None))
              ["tmp"; "project2"; ".venv"] None (Some quiet_batch) _)
              2 [["tmp"; "project1"; "venv"]] [] fs_test 0 0%N [] 1 70%N [] _ _)).
    + by apply wf_b_sound.
    + reflexivity.
    + intros f [= <-]. reflexivity.
Defined.

(** *** A progress callback that always raises *)

Lemma fold_left_reaches {A B} (P Q : A → Prop) (f : A → B → A) (x : B)
    (l : list B) (a : A) :
  (∀ a b, b ∈ l → P a → P (f a b)) →
  (∀ a b, b ∈ l → Q a → Q (f a b)) →
  (∀ a, P a → Q (f a x)) →
  x ∈ l → P a → Q (fold_left f l a).
Proof.
  revert a. induction l as [|b l IH]; intros a HP HQ Hx Hin Ha.
  { by apply elem_of_nil in Hin. }
  simpl. apply elem_of_cons in Hin as [->|Hin].
  - apply fold_left_preserves; [|by apply Hx].
    intros a' b' ? ?. apply HQ; [by right|done].
  - apply IH; [| |done..|apply HP; [left|done]].
    + intros a' b' ? ?. apply HP; [by right|done].
    + intros a' b' ? ?. apply HQ; [by right|done].
Qed.

Lemma walk_subdirs_keeps_files cb total root es st nm sz s u :
  (nm, File sz s u) ∈ es →
  (nm, File sz s u) ∈ (walk_subdirs (delete_walk cb total) root es st).1.
Proof.
  revert st. induction es as [|[nm' c] es IH]; intros st Hin.
  { by apply elem_of_nil in Hin. }
  simpl. destruct (delete_walk _ _ _ c st) as [c' st'] eqn:Hc.
  specialize (IH st'). destruct (walk_subdirs _ _ es st') as [es' st''].
  simpl in *. apply elem_of_cons in Hin as [[= -> <-]|Hin].
  - simpl in Hc. simplify_eq. left.
  - right. auto.
Qed.

Section AlwaysRaises.
Context (g : byte_callback) (total : N) (e0 : exn).
Hypothesis g_raises : ∀ b, g b total = Some e0.
Hypothesis e0_unexpected : is_oserror e0 = false.

Lemma delete_file_raises root nm sz st :
  raised (delete_file (Some g) total root nm sz true true st).2 = Some e0.
Proof.
  unfold delete_file. cbn [negb]. rewrite g_raises.
  by destruct e0.
Qed.

Lemma delete_file_only_e0 root nm sz s u st :
  raised st = None → only_e0 e0 (delete_file (Some g) total root nm sz s u st).2.
Proof.
  intros Hnone e. destruct s; [|simpl; congruence]. destruct u; [|simpl; congruence].
  rewrite delete_file_raises. congruence.
Qed.

Lemma delete_file_one_call root nm sz s u st :
  raised st = None → one_call total e0 st →
  one_call total e0 (delete_file (Some g) total root nm sz s u st).2.
Proof.
  intros Hnone [[Hcalls _]|(? & _ & ?)]; [|congruence].
  destruct s; [|by left]. destruct u; [|by left].
  right. exists (bytes_removed st + sz)%N.
  split; [|apply delete_file_raises].
  unfold delete_file. cbn [negb]. rewrite g_raises.
  destruct e0; simpl; by rewrite ?Hcalls.
Qed.

Lemma file_step_raises root nm sz st :
  only_e0 e0 st →
  raised (file_step (Some g) total root (nm, File sz true true) st) = Some e0.
Proof.
  intros Hst. unfold file_step. simpl.
  destruct (raised st) as [e|] eqn:Hr; [by rewrite Hr, (Hst e)|].
  apply delete_file_raises.
Qed.

Lemma delete_walk_raises n :
  match n with
  | File _ _ _ => True
  | Dir _ _ _ =>
      has_deletable_file n = true →
      ∀ root st, only_e0 e0 st →
        raised (delete_walk (Some g) total root n st).2 = Some e0
  end.
Proof.
  induction n as [sz s u|l r es IH] using node_ind; [done|].
  intros Hdel root st Hst. simpl in Hdel.
  apply andb_true_iff in Hdel as [-> Hdel].
  apply existsb_exists in Hdel as ([nm c] & Hin%list_elem_of_In & Hc).
  rewrite delete_walk_snd. cbn zeta.
  set (stays := λ st : progress, raised st = Some e0).
  assert (Hstays : ∀ root es st, stays st →
            stays (delete_dirs root es st).2 ∧
            stays (delete_files (Some g) total root es st).2).
  { intros root' es' st' ?. split.
    - by apply (delete_dirs_preserves stays).
    - apply (delete_files_preserves (Some g) total stays); [|done..].
      unfold stays. congruence. }
  assert (Hsub : only_e0 e0 (walk_subdirs (delete_walk (Some g) total) root es st).2).
  { rewrite walk_subdirs_snd. apply fold_left_preserves; [|done].
    intros st' e _ ?. apply delete_walk_preserves; [|done..].
    intros. by apply delete_file_only_e0. }
  apply Hstays. destruct c as [sz s u|l' r' es'].
  - simpl in Hc. apply andb_true_iff in Hc as [-> ->].
    rewrite delete_files_snd.
    apply (fold_left_reaches (only_e0 e0) stays _ (nm, File sz true true));
      [| | |by apply walk_subdirs_keeps_files|done].
    + intros st' e _ ?. apply file_step_preserves; [|done..].
      intros. by apply delete_file_only_e0.
    + intros st' e _ ?. apply (file_step_preserves (Some g) total stays); [|done..].
      unfold stays. congruence.
    + intros st' ?. by apply file_step_raises.
  - apply Hstays. rewrite walk_subdirs_snd.
    apply (fold_left_reaches (only_e0 e0) stays _ (nm, Dir l' r' es')); [| | |done..].
    + intros st' e _ ?. apply delete_walk_preserves; [|done..].
      intros. by apply delete_file_only_e0.
    + intros st' e _ ?. apply (delete_walk_preserves (Some g) total stays); [|done..].
      unfold stays. congruence.
    + intros st' ?. rewrite Forall_forall in IH.
      by apply (IH (nm, Dir l' r' es')).
Qed.

Lemma remove_root_raised venv_path n st e :
  raised st = Some e → (remove_root venv_path n st).2 = st.
Proof. unfold remove_root. by intros ->. Qed.
End AlwaysRaises.

(** *** delete_multiple_venvs *)

Lemma venv_progress_zero fmt f venvs_deleted total_venvs venv_path b :
  venv_progress fmt (Some f) venvs_deleted total_venvs venv_path b 0%N
  = Some (ZeroDivisionError "division by zero").
Proof. done. Qed.

(** Whenever the loop returns, every path has been counted once, and the
    failures are paths of the input, in order. *)
Lemma delete_loop_count fmt pcb total paths : ∀ fs d b fl fs' d' b' fl',
  delete_loop fmt pcb total paths fs d b fl = Returned fs' d' b' fl' →
  d' + length fl' = d + length fl + length paths ∧
  ∃ fl0, fl' = fl ++ fl0 ∧ fl0.*1 `sublist_of` paths.
Proof.
  induction paths as [|path paths IH]; intros fs d b fl fs' d' b' fl'.
  { simpl. intros [=]; subst. split; [lia|]. exists []. by rewrite app_nil_r. }
  simpl. destruct (match pcb with Some _ => _ | None => _ end); [done|].
  destruct (success _).
  - intros (Hcount & fl0 & -> & Hsub)%IH. split; [lia|].
    exists fl0. split; [done|]. by apply sublist_cons.
  - intros (Hcount & fl0 & -> & Hsub)%IH. rewrite !length_app in *. simpl in *.
    split; [lia|]. eexists (_ :: fl0). rewrite <- app_assoc. split; [done|].
    simpl. by apply sublist_skip.
Qed.

(** The loop returns unless the batch callback raises when it is given the
    plain path at the top of an iteration. *)
Lemma delete_loop_returns fmt pcb total paths : ∀ fs d b fl,
  (∀ f d p, pcb = Some f → p ∈ paths → f d total (str_path p) = None) →
  ∃ fs' d' b' fl', delete_loop fmt pcb total paths fs d b fl = Returned fs' d' b' fl'.
Proof.
  induction paths as [|path paths IH]; intros fs d b fl Hcb; [simpl; eauto|].
  assert (Hrest : ∀ f d p, pcb = Some f → p ∈ paths → f d total (str_path p) = None).
  { intros f d0 p ? ?. apply Hcb; [done|by right]. }
  specialize (IH
    (fs_after (safe_delete_venv fs path (Some (venv_progress fmt pcb d total path))))).
  cbn [delete_loop].
  destruct pcb as [f|]; [rewrite (Hcb f d path eq_refl) by left|];
    destruct (success _); by apply IH.
Qed.

(** C10: with a batch callback, a directory whose measured size is 0 and
    which holds a file that can be deleted is reported as a failure,
    wherever it stands in the batch and whatever has been counted before:
    the first progress call divides by the zero total, and the handler of
    safe_delete_venv turns the ZeroDivisionError into its generic result.
    [fs] is the file system when the turn of [D] begins, [pre] the paths
    handled before and [post] the paths that follow. *)
Theorem delete_multiple_venvs_zero_total fmt f total (pre post : list path)
    fs0 d0 b0 fl0 fs d b fl D l r es :
  delete_loop fmt (Some f) total pre fs0 d0 b0 fl0 = Returned fs d b fl →
  resolve fs D = Some (Dir l r es) →
  dir_size fs D = 0%N →
  has_deletable_file (Dir l r es) = true →
  f d total (str_path D) = None →
  let out := safe_delete_venv fs D (Some (venv_progress fmt (Some f) d total D)) in
  success out = false ∧
  detail out = "Unexpected error during deletion: division by zero" ∧
  (∃ b1, progress_calls out = [(b1, 0%N)]) ∧
  delete_loop fmt (Some f) total (pre ++ D :: post) fs0 d0 b0 fl0
  = delete_loop fmt (Some f) total post (fs_after out) d b
      (fl ++ [(D, "Unexpected error during deletion: division by zero")]) ∧
  (∀ fs' d' b' fl',
     delete_loop fmt (Some f) total (pre ++ D :: post) fs0 d0 b0 fl0
       = Returned fs' d' b' fl' →
     (D, "Unexpected error during deletion: division by zero") ∈ fl').
Proof.
  intros Hpre Hres Hsize Hdel Hf out.
  set (g := venv_progress fmt (Some f) d total D) in *.
  set (e0 := ZeroDivisionError "division by zero").
  assert (Htotal : walk_size (Dir l r es) 0 = 0%N).
  { unfold dir_size in Hsize. by rewrite Hres in Hsize. }
  assert (Hg : ∀ b, g b 0%N = Some e0) by done.
  assert (Hraised : raised (deletion D (Dir l r es) (Some g)).2 = Some e0).
  { unfold deletion. rewrite Htotal.
    destruct (delete_walk _ _ _ _ _) as [n' st'] eqn:Hwalk.
    assert (Hst' : raised st' = Some e0).
    { change st' with (n', st').2. rewrite <- Hwalk.
      apply (delete_walk_raises g 0%N e0 Hg eq_refl (Dir l r es) Hdel).
      by intros e. }
    by rewrite (remove_root_raised _ _ _ _ Hst'). }
  assert (Hcalls : one_call 0%N e0 (deletion D (Dir l r es) (Some g)).2).
  { apply deletion_preserves.
    - rewrite Htotal. intros. by apply delete_file_one_call.
    - done.
    - by left. }
  assert (Hout : success out = false ∧
                 detail out = "Unexpected error during deletion: division by zero" ∧
                 ∃ b1, progress_calls out = [(b1, 0%N)]).
  { subst out. rewrite (safe_delete_venv_dir _ _ _ _ _ _ Hres). cbn zeta.
    cbn [success detail progress_calls]. unfold report. rewrite Hraised.
    split_and!; [done..|].
    destruct Hcalls as [[_ ?]|(b1 & ? & _)]; [congruence|by exists b1]. }
  destruct Hout as (Hs & Hd & Hc).
  assert (Hloop :
    delete_loop fmt (Some f) total (pre ++ D :: post) fs0 d0 b0 fl0
    = delete_loop fmt (Some f) total post (fs_after out) d b
        (fl ++ [(D, "Unexpected error during deletion: division by zero")])).
  { rewrite delete_loop_prefix, Hpre. cbn [delete_loop]. rewrite Hf.
    fold g. fold out. by rewrite Hs, Hd. }
  split_and!; [done..|].
  intros fs' d' b' fl'. rewrite Hloop.
  intros (_ & fl1 & -> & _)%delete_loop_count.
  rewrite !elem_of_app, list_elem_of_singleton. auto.
Qed.

(** /w is deleted first, so that /v is handled with one environment and 75
    bytes counted, as the second of two. *)
Lemma delete_multiple_venvs_zero_total_witness :
  dir_size fs_empty_files ["v"] = 0%N ∧
  delete_multiple_venvs percent_text fs_empty_files [["w"]; ["v"]] (Some quiet_batch)
  = Returned
      (dir [("v", dir [("pyvenv.cfg", file 0); ("lib", dir [])])])
      1 75 [(["v"], "Unexpected error during deletion: division by zero")].
Proof.
  split; [reflexivity|].
  exact (proj1 (proj2 (proj2 (proj2
    (delete_multiple_venvs_zero_total percent_text quiet_batch 2 [["w"]] []
       fs_empty_files 0 0%N []
       (dir [("v", dir [("pyvenv.cfg", file 0); ("lib", dir [("x", file 0)])])])
       1 75%N [] ["v"] true true
       [("pyvenv.cfg", file 0); ("lib", dir [("x", file 0)])]
       eq_refl eq_refl eq_refl eq_refl eq_refl))))).
Defined.

(** Where exists() and is_dir() answer for every path of the batch (none
    goes through a directory that may not be searched),
    delete_multiple_venvs returns whatever happens to the paths, and its
    report counts every one of the N paths once, as deleted or as failed;
    the failures are paths of the input.  The batch callback is taken not
    to raise when it is called with a plain path. *)
Lemma delete_multiple_venvs_accounts_for_all fmt fs (paths : list path) pcb :
  (∀ f d p, pcb = Some f → p ∈ paths → f d (length paths) (str_path p) = None) →
  ∃ fs' venvs_deleted bytes_freed failures,
    delete_multiple_venvs fmt fs paths pcb
      = Returned fs' venvs_deleted bytes_freed failures ∧
    venvs_deleted + length failures = length paths ∧
    failures.*1 `sublist_of` paths.
Proof.
  intros Hcb. unfold delete_multiple_venvs.
  destruct (delete_loop_returns fmt pcb (length paths) paths fs 0 0%N [] Hcb)
    as (fs' & d' & b' & fl' & Hloop).
  exists fs', d', b', fl'. split; [done|].
  apply delete_loop_count in Hloop as (Hcount & fl0 & -> & Hsub).
  change ([] ++ fl0) with fl0 in *. simpl in Hcount. split; [lia|done].
Qed.

Lemma delete_multiple_venvs_accounts_for_all_witness :
  ∃ fs' venvs_deleted bytes_freed failures,
    delete_multiple_venvs percent_text fs_locked
      [["v"]; ["nowhere"]; ["v"; "b"]] (Some quiet_batch)
      = Returned fs' venvs_deleted bytes_freed failures ∧
    venvs_deleted + length failures = 3 ∧
    failures.*1 `sublist_of` [["v"]; ["nowhere"]; ["v"; "b"]].
Proof.
  apply (delete_multiple_venvs_accounts_for_all percent_text fs_locked
           [["v"]; ["nowhere"]; ["v"; "b"]] (Some quiet_batch)).
  intros f d p [= <-] _. reflexivity.
Defined.

(** The scenario of the specification: of three paths, one fails. *)
Example delete_multiple_venvs_one_failure :
  ∃ fs',
    delete_multiple_venvs percent_text fs_test
      [["tmp"; "project1"; "venv"]; ["tmp"; "missing"]; ["tmp"; "project2"; ".venv"]]
      (Some quiet_batch)
    = Returned fs' 2 93
        [(["tmp"; "missing"], "Directory does not exist: /tmp/missing")].
Proof. eexists. by vm_compute. Qed.

Lemma progress_calls_nondecreasing_witness :
  (progress_calls (safe_delete_venv fs_empty_files ["w"] (Some quiet))).*1 !! 0
    = Some 5%N ∧
  (progress_calls (safe_delete_venv fs_empty_files ["w"] (Some quiet))).*1 !! 1
    = Some 75%N ∧
  (5 ≤ 75)%N.
Proof.
  split; [reflexivity|]. split; [reflexivity|].
  apply (progress_calls_nondecreasing fs_empty_files ["w"] (Some quiet) 0 1).
  - apply Nat.le_0_l.
  - reflexivity.
  - reflexivity.
Defined.

(** Files of size 0 repeat the value: the sequence does not always grow. *)
Example progress_calls_repeat :
  progress_calls (safe_delete_venv fs_empty_files ["v"] (Some quiet))
  = [(0, 0); (0, 0)]%N.
Proof. by vm_compute. Qed.

End CleanerProofs.

(** ** Search permission: where the lookups of the model are exact *)

Module AccessProofs.
Import FS Access Cleaner Examples FSProofs.

Lemma stat_from_searchable sealed : ∀ p here n,
  (∀ pre c post, p = pre ++ c :: post → here ++ pre ∉ sealed) →
  stat_from sealed here n p
  = match resolve n p with Some n' => Found n' | None => Missing end.
Proof.
  induction p as [|c p IH]; intros here n Hs; [done|].
  destruct n as [sz s u|l r es]; [done|]. simpl.
  rewrite bool_decide_eq_false_2
    by (specialize (Hs [] c p eq_refl); by rewrite app_nil_r in Hs).
  destruct (lookup_entry c es) as [ch|]; [|done]. simpl.
  apply IH. intros pre c' post ->. rewrite <- app_assoc.
  by apply (Hs (c :: pre) c' post).
Qed.

Lemma stat_searchable sealed fs p :
  searchable sealed p →
  stat sealed fs p = match resolve fs p with Some n => Found n | None => Missing end.
Proof. intros Hs. apply stat_from_searchable. intros pre c post. apply Hs. Qed.

Lemma exists_searchable sealed fs p :
  searchable sealed p → Access.exists_ sealed fs p = Ok (FS.exists_ fs p).
Proof.
  intros Hs. unfold Access.exists_, FS.exists_. rewrite stat_searchable by done.
  by destruct (resolve fs p).
Qed.

Lemma is_dir_searchable sealed fs p :
  searchable sealed p → Access.is_dir sealed fs p = Ok (FS.is_dir fs p).
Proof.
  intros Hs. unfold Access.is_dir, FS.is_dir. rewrite stat_searchable by done.
  by destruct (resolve fs p) as [[]|].
Qed.

Lemma iterdir_searchable sealed fs p :
  searchable sealed p → Access.iterdir sealed fs p = FS.iterdir fs p.
Proof.
  intros Hs. unfold Access.iterdir, FS.iterdir. rewrite stat_searchable by done.
  by destruct (resolve fs p) as [[]|].
Qed.

Lemma open_below_searchable sealed (start rel : path) :
  open_below sealed start → searchable sealed (start ++ rel).
Proof.
  intros Hopen pre c post Heq Hin. destruct (Hopen pre Hin) as [H1 H2].
  destruct (prefix_weak_total start pre (start ++ rel)); [| |done..].
  - by apply prefix_app_r.
  - rewrite Heq. by apply prefix_app_r.
Qed.

(** *** finder.py *)

Section Scan.
Context (sealed : gset path) (identifiers : list string).

Lemma existsb_Permutation {A} (f : A → bool) (l l' : list A) :
  l ≡ₚ l' → existsb f l = existsb f l'.
Proof.
  induction 1 as [|x l l' _ IH|x y l|l l' l'' _ IH1 _ IH2]; simpl;
    [done|by rewrite IH| |congruence].
  by destruct (f x), (f y).
Qed.

Lemma any_exists_searchable fs p ids :
  (∀ identifier, searchable sealed (joinpath p identifier)) →
  FinderAccess.any_exists sealed fs p ids
  = Ok (existsb (λ identifier, FS.exists_ fs (joinpath p identifier)) ids).
Proof.
  intros Hs. induction ids as [|identifier ids IH]; [done|]. simpl.
  rewrite exists_searchable by done.
  by destruct (FS.exists_ fs (joinpath p identifier)).
Qed.

Lemma is_virtual_env_open fs (start rel : path) :
  identifiers ≡ₚ Finder.VENV_IDENTIFIERS →
  open_below sealed start →
  FinderAccess.is_virtual_env sealed identifiers fs (start ++ rel)
  = Ok (Finder.is_virtual_env fs (start ++ rel)).
Proof.
  intros Hids Hopen. unfold FinderAccess.is_virtual_env, Finder.is_virtual_env.
  rewrite is_dir_searchable by by apply open_below_searchable.
  destruct (FS.is_dir fs (start ++ rel)); [|done]. cbn [negb].
  rewrite any_exists_searchable.
  - f_equal. by apply existsb_Permutation.
  - intros identifier. unfold joinpath. rewrite <- app_assoc.
    by apply open_below_searchable.
Qed.

Lemma scan_items_flat_map fs scan (g : path → list path) items :
  (∀ item, item ∈ items →
     Access.is_dir sealed fs item = Ok (FS.is_dir fs item) ∧
     scan item = (g item, None)) →
  FinderAccess.scan_items sealed fs scan items
  = flat_map (λ item, if Finder.eligible fs item then g item else []) items.
Proof.
  induction items as [|item items IH]; intros Hitems; [done|].
  destruct (Hitems item) as [Hdir Hscan]; [left|].
  cbn [FinderAccess.scan_items flat_map].
  rewrite Hdir, Hscan. fold (FinderAccess.scan_items sealed fs scan items).
  rewrite IH by (intros ? ?; apply Hitems; by right).
  unfold Finder.eligible. by destruct (_ && _).
Qed.

Lemma find_venvs_in_dir_depth_open fs excl (start : path) :
  identifiers ≡ₚ Finder.VENV_IDENTIFIERS →
  open_below sealed start →
  ∀ depth rel,
    FinderAccess.find_venvs_in_dir_depth sealed identifiers fs depth excl (start ++ rel)
    = (Finder.find_venvs_in_dir_depth fs depth excl (start ++ rel), None).
Proof.
  intros Hids Hopen. induction depth as [|depth IH]; intros rel.
  - simpl. rewrite is_virtual_env_open by done.
    case_bool_decide; [done|]. by destruct (Finder.is_virtual_env _ _).
  - cbn [FinderAccess.find_venvs_in_dir_depth Finder.find_venvs_in_dir_depth].
    rewrite is_virtual_env_open by done.
    case_bool_decide; [done|]. destruct (Finder.is_virtual_env _ _); [done|].
    rewrite iterdir_searchable by by apply open_below_searchable.
    destruct (FS.iterdir fs (start ++ rel)) as [items|] eqn:Hit; [|done].
    f_equal. apply scan_items_flat_map. intros item Hitem.
    unfold FS.iterdir in Hit.
    destruct (resolve fs (start ++ rel)) as [[|[] r es]|]; simplify_eq.
    apply list_elem_of_fmap in Hitem as (e & -> & _).
    rewrite <- app_assoc. split; [|apply IH].
    apply is_dir_searchable. by apply open_below_searchable.
Qed.

Lemma top_dirs_filter fs excl items :
  (∀ d, d ∈ items → Access.is_dir sealed fs d = Ok (FS.is_dir fs d)) →
  FinderAccess.top_dirs sealed fs excl items
  = Some (filter (λ d, FS.is_dir fs d = true ∧ name d ∉ excl) items).
Proof.
  induction items as [|d items IH]; intros Hitems; [done|].
  cbn [FinderAccess.top_dirs]. rewrite Hitems by left.
  rewrite IH by (intros ? ?; apply Hitems; by right).
  rewrite filter_cons. f_equal.
  destruct (FS.is_dir fs d); simpl.
  - case_bool_decide; destruct (decide _) as [[_ ?]|Hn]; try done.
    destruct Hn. by split.
  - done.
Qed.

Lemma gather_flat_map worker (g : path → list path) dirs :
  (∀ d, d ∈ dirs → worker d = (g d, None)) →
  FinderAccess.gather worker dirs = flat_map g dirs.
Proof.
  induction dirs as [|d dirs IH]; intros Hdirs; [done|].
  simpl. rewrite Hdirs by left. f_equal. apply IH. intros ? ?. apply Hdirs. by right.
Qed.

(** Where no directory at, above or below the start directory is sealed,
    no call raises and the scan is the one of [Finder]. *)
Lemma find_venvs_open fs win32 (start : path) max_depth excl parallel :
  identifiers ≡ₚ Finder.VENV_IDENTIFIERS →
  open_below sealed start →
  FinderAccess.find_venvs sealed identifiers fs win32 start max_depth excl parallel
  = Ok (Finder.find_venvs fs win32 start max_depth excl parallel).
Proof.
  intros Hids Hopen. unfold FinderAccess.find_venvs, Finder.find_venvs.
  destruct parallel; cbn [negb].
  - rewrite iterdir_searchable
      by (rewrite <- (app_nil_r start); by apply open_below_searchable).
    destruct (FS.iterdir fs start) as [items|] eqn:Hit; [|done].
    assert (Hchild : ∀ d, d ∈ items → ∃ c, d = start ++ [c]).
    { unfold FS.iterdir in Hit.
      destruct (resolve fs start) as [[|[] r es]|]; simplify_eq.
      intros d (e & -> & _)%list_elem_of_fmap. by exists e.1. }
    rewrite top_dirs_filter.
    + f_equal. apply gather_flat_map.
      intros d [_ Hd%Hchild]%list_elem_of_filter. destruct Hd as [c ->].
      by apply find_venvs_in_dir_depth_open.
    + intros d [c ->]%Hchild. apply is_dir_searchable.
      by apply open_below_searchable.
  - unfold FinderAccess.find_venvs_in_dir, Finder.find_venvs_in_dir.
    rewrite <- (app_nil_r start).
    by rewrite find_venvs_in_dir_depth_open.
Qed.

(** A deeper scan lets the same exception through and loses no result. *)
Lemma scan_items_mono fs (scan scan' : path → list path * option exn) items :
  (∀ item, (scan item).2 = (scan' item).2 ∧ (scan item).1 ⊆ (scan' item).1) →
  FinderAccess.scan_items sealed fs scan items
  ⊆ FinderAccess.scan_items sealed fs scan' items.
Proof.
  intros Hscan. induction items as [|item items IH]; [done|].
  cbn [FinderAccess.scan_items].
  fold (FinderAccess.scan_items sealed fs scan items).
  fold (FinderAccess.scan_items sealed fs scan' items).
  destruct (Access.is_dir sealed fs item) as [d|]; [|done].
  destruct (d && _); [|done].
  destruct (Hscan item) as [He Hf].
  destruct (scan item) as [found e], (scan' item) as [found' e'].
  simpl in He, Hf. subst e'. destruct e; [done|].
  intros p [?|?]%elem_of_app; apply elem_of_app; auto.
Qed.

Lemma find_venvs_in_dir_depth_deeper fs excl : ∀ depth depth' directory,
  depth ≤ depth' →
  (FinderAccess.find_venvs_in_dir_depth sealed identifiers fs depth excl directory).2
  = (FinderAccess.find_venvs_in_dir_depth sealed identifiers fs depth' excl directory).2 ∧
  (FinderAccess.find_venvs_in_dir_depth sealed identifiers fs depth excl directory).1
  ⊆ (FinderAccess.find_venvs_in_dir_depth sealed identifiers fs depth' excl directory).1.
Proof.
  induction depth as [|depth IH]; intros depth' directory Hle.
  - destruct depth' as [|depth']; [done|].
    cbn [FinderAccess.find_venvs_in_dir_depth].
    case_bool_decide; [done|].
    destruct (FinderAccess.is_virtual_env _ _ _ _) as [[]|]; [done| |done].
    destruct (Access.iterdir _ _ _); simpl; (split; [done|]);
      by intros p ?%elem_of_nil.
  - destruct depth' as [|depth']; [lia|].
    cbn [FinderAccess.find_venvs_in_dir_depth].
    case_bool_decide; [done|].
    destruct (FinderAccess.is_virtual_env _ _ _ _) as [[]|]; [done| |done].
    destruct (Access.iterdir _ _ _); [|done]. simpl. split; [done|].
    apply scan_items_mono. intros item. apply IH. lia.
Qed.

Lemma gather_mono (worker worker' : path → list path * option exn) dirs :
  (∀ d, (worker d).2 = (worker' d).2 ∧ (worker d).1 ⊆ (worker' d).1) →
  FinderAccess.gather worker dirs ⊆ FinderAccess.gather worker' dirs.
Proof.
  intros Hw. induction dirs as [|d dirs IH]; [done|]. simpl.
  destruct (Hw d) as [He Hf].
  destruct (worker d) as [found e], (worker' d) as [found' e'].
  simpl in He, Hf. subst e'. destruct e; [done|].
  intros p [?|?]%elem_of_app; apply elem_of_app; auto.
Qed.

End Scan.

(** *** cleaner.py *)

(** Where stat(2) on the path is not refused, safe_delete_venv is the one of
    [Cleaner]. *)
Lemma safe_delete_venv_searchable sealed fs (venv_path : path) cb :
  searchable sealed venv_path →
  CleanerAccess.safe_delete_venv sealed fs venv_path cb
  = Ok (Cleaner.safe_delete_venv fs venv_path cb).
Proof.
  intros Hs. unfold CleanerAccess.safe_delete_venv, Cleaner.safe_delete_venv.
  rewrite exists_searchable, is_dir_searchable by done.
  unfold FS.exists_, FS.is_dir.
  by destruct (resolve fs venv_path) as [[]|].
Qed.

Lemma delete_loop_searchable sealed fmt pcb total : ∀ paths fs d b fl,
  (∀ p, p ∈ paths → searchable sealed p) →
  CleanerAccess.delete_loop sealed fmt pcb total paths fs d b fl
  = Cleaner.delete_loop fmt pcb total paths fs d b fl.
Proof.
  induction paths as [|path paths IH]; intros fs d b fl Hs; [done|].
  cbn [CleanerAccess.delete_loop Cleaner.delete_loop].
  destruct (match pcb with Some _ => _ | None => _ end); [done|].
  rewrite safe_delete_venv_searchable by (apply Hs; left).
  destruct (success _); apply IH; intros ? ?; apply Hs; by right.
Qed.

(** Where stat(2) is refused on no path of the batch and the batch
    callback does not raise when it is given a plain path,
    delete_multiple_venvs returns and counts every path once. *)
Lemma delete_multiple_venvs_searchable sealed fmt fs (paths : list path) pcb :
  (∀ p, p ∈ paths → searchable sealed p) →
  (∀ f d p, pcb = Some f → p ∈ paths → f d (length paths) (str_path p) = None) →
  ∃ fs' venvs_deleted bytes_freed failures,
    CleanerAccess.delete_multiple_venvs sealed fmt fs paths pcb
      = Returned fs' venvs_deleted bytes_freed failures ∧
    venvs_deleted + length failures = length paths ∧
    failures.*1 `sublist_of` paths.
Proof.
  intros Hs Hcb. unfold CleanerAccess.delete_multiple_venvs.
  rewrite delete_loop_searchable by done.
  by apply CleanerProofs.delete_multiple_venvs_accounts_for_all.
Qed.

(** A path that goes through a sealed directory makes safe_delete_venv
    raise. *)
Lemma safe_delete_venv_denied sealed fs (venv_path : path) cb :
  stat sealed fs venv_path = Denied →
  CleanerAccess.safe_delete_venv sealed fs venv_path cb
  = Raise (os_error EACCES venv_path).
Proof.
  intros Hstat. unfold CleanerAccess.safe_delete_venv, Access.exists_.
  by rewrite Hstat.
Qed.

Lemma delete_loop_access_prefix sealed fmt pcb total post : ∀ pre fs d b fl,
  CleanerAccess.delete_loop sealed fmt pcb total (pre ++ post) fs d b fl =
  match CleanerAccess.delete_loop sealed fmt pcb total pre fs d b fl with
  | Returned fs1 d1 b1 fl1 =>
      CleanerAccess.delete_loop sealed fmt pcb total post fs1 d1 b1 fl1
  | Raised fs1 e => Raised fs1 e
  end.
Proof.
  induction pre as [|path pre IH]; intros fs d b fl; [done|].
  cbn [app CleanerAccess.delete_loop].
  destruct (match pcb with Some _ => _ | None => _ end); [done|].
  destruct (CleanerAccess.safe_delete_venv _ _ _ _) as [out|]; [|done].
  destruct (success out); apply IH.
Qed.

(** Whenever delete_multiple_venvs returns, every path has been counted
    once. *)
Lemma delete_loop_access_count sealed fmt pcb total paths : ∀ fs d b fl fs' d' b' fl',
  CleanerAccess.delete_loop sealed fmt pcb total paths fs d b fl
    = Returned fs' d' b' fl' →
  d' + length fl' = d + length fl + length paths ∧
  ∃ fl0, fl' = fl ++ fl0 ∧ fl0.*1 `sublist_of` paths.
Proof.
  induction paths as [|path paths IH]; intros fs d b fl fs' d' b' fl'.
  { simpl. intros [=]; subst. split; [lia|]. exists []. by rewrite app_nil_r. }
  cbn [CleanerAccess.delete_loop].
  destruct (match pcb with Some _ => _ | None => _ end); [done|].
  destruct (CleanerAccess.safe_delete_venv _ _ _ _) as [out|]; [|done].
  destruct (success out).
  - intros (Hcount & fl0 & -> & Hsub)%IH. simpl. split; [lia|].
    exists fl0. split; [done|]. by apply sublist_cons.
  - intros (Hcount & fl0 & -> & Hsub)%IH. rewrite !length_app in *. simpl in *.
    split; [lia|]. eexists (_ :: fl0). rewrite <- app_assoc. split; [done|].
    simpl. by apply sublist_skip.
Qed.

(** C8: delete_multiple_venvs does raise on the failure of one path.  When
    the turn of a path [D] comes on which stat(2) is refused (it goes
    through a directory that may not be searched), the PermissionError of
    exists() at line 20 of cleaner.py, outside every [try], leaves
    safe_delete_venv and delete_multiple_venvs: no report is returned, and
    the paths after [D] are not handled.  [pre] are the paths handled
    before and [fs] is the file system they leave. *)
Theorem delete_multiple_venvs_raises_on_refused_path sealed fmt pcb total
    (pre post : list path) (D : path) fs0 d0 b0 fl0 fs d b fl :
  CleanerAccess.delete_loop sealed fmt pcb total pre fs0 d0 b0 fl0
    = Returned fs d b fl →
  (∀ f, pcb = Some f → f d total (str_path D) = None) →
  stat sealed fs D = Denied →
  CleanerAccess.delete_loop sealed fmt pcb total (pre ++ D :: post) fs0 d0 b0 fl0
  = Raised fs (os_error EACCES D).
Proof.
  intros Hpre Hcb Hstat. rewrite delete_loop_access_prefix, Hpre.
  cbn [CleanerAccess.delete_loop].
  replace (match pcb with Some f => f d total (str_path D) | None => None end)
    with (@None exn) by (destruct pcb as [f|]; [by rewrite (Hcb f)|done]).
  by rewrite safe_delete_venv_denied.
Qed.

(** /locked may not be searched: the batch of /w, /locked/venv and
    /home/proj/venv deletes /w, raises on /locked/venv and leaves
    /home/proj/venv in place. *)
Lemma delete_multiple_venvs_raises_on_refused_path_witness :
  CleanerAccess.delete_multiple_venvs sealed_dirs percent_text fs_sealed
    [["w"]; ["locked"; "venv"]; ["home"; "proj"; "venv"]] (Some quiet_batch)
  = Raised
      (dir [("locked", Dir false true [("venv", venv)]);
            ("s", dir [("aaa", Dir false true []); ("venv", venv)]);
            ("home", dir [("proj", dir [("venv", venv)])])])
      (OSError "[Errno 13] Permission denied: '/locked/venv'").
Proof.
  apply (delete_multiple_venvs_raises_on_refused_path sealed_dirs percent_text
           (Some quiet_batch) 3 [["w"]] [["home"; "proj"; "venv"]] ["locked"; "venv"]
           fs_sealed 0 0%N [] _ 1 70%N []).
  - vm_compute. reflexivity.
  - intros f [= <-]. reflexivity.
  - vm_compute. reflexivity.
Defined.

(** Alone in its batch, the path raises as well; and safe_delete_venv
    itself raises where its contract is a pair. *)
Example delete_multiple_venvs_raises :
  CleanerAccess.delete_multiple_venvs sealed_dirs percent_text fs_sealed
    [["locked"; "venv"]] None
  = Raised fs_sealed (OSError "[Errno 13] Permission denied: '/locked/venv'") ∧
  CleanerAccess.safe_delete_venv sealed_dirs fs_sealed ["locked"; "venv"] None
  = Raise (OSError "[Errno 13] Permission denied: '/locked/venv'").
Proof. split; vm_compute; reflexivity. Qed.

End AccessProofs.

(** ** Further properties of finder.py *)

Module FinderExtra.
Import FS Finder Examples Measures FSProofs FinderProofs AccessProofs.




Lemma find_venvs_elem_recognized fs win32 start max_depth excl parallel (p : path) :
  p ∈ find_venvs fs win32 start max_depth excl parallel →
  is_virtual_env fs p = true.
Proof.
  unfold find_venvs, find_venvs_in_dir. destruct parallel; cbn [negb].
  - destruct (iterdir fs start) as [items|]; [|by intros ?%elem_of_nil].
    intros (item & _ & Hp)%elem_of_flat_map.
    by eapply find_venvs_in_dir_depth_recognized.
  - apply find_venvs_in_dir_depth_recognized.
Qed.

(** X1: whatever find_venvs returns is a recognized environment, in
    either mode. *)
Theorem find_venvs_recognized fs win32 start max_depth excl parallel (p : path) :
  p ∈ find_venvs fs win32 start max_depth excl parallel →
  is_virtual_env fs p = true.
Proof. apply find_venvs_elem_recognized. Qed.

Lemma find_venvs_recognized_witness :
  is_virtual_env fs_hidden ["proj"; ".tox"; "py39"] = true.
Proof.
  apply (find_venvs_recognized fs_hidden false ["proj"] 5 [] true).
  decide_by_compute.
Defined.

Lemma find_venvs_in_dir_depth_length fs depth excl : ∀ directory p,
  p ∈ find_venvs_in_dir_depth fs depth excl directory →
  ∃ rel, p = directory ++ rel ∧ length rel ≤ depth.
Proof.
  induction depth as [|depth IH]; intros directory p Hp;
    apply find_venvs_in_dir_depth_inv in Hp
      as [_ [[-> ?]|[_ (depth' & c & ? & _ & Hp)]]]; simplify_eq.
  - exists []. split; [by rewrite app_nil_r|simpl; lia].
  - exists []. split; [by rewrite app_nil_r|simpl; lia].
  - apply IH in Hp as (rel & -> & Hlen).
    exists (c :: rel). split; [by rewrite <- app_assoc|simpl; lia].
Qed.

Lemma find_venvs_elem_depth fs win32 start max_depth excl parallel (p : path) :
  p ∈ find_venvs fs win32 start max_depth excl parallel →
  ∃ rel, p = start ++ rel ∧
    if parallel
    then 1 ≤ length rel ≤ Z.to_nat (Z.max max_depth 1)
    else length rel ≤ Z.to_nat max_depth.
Proof.
  unfold find_venvs, find_venvs_in_dir. destruct parallel; cbn [negb].
  - destruct (iterdir fs start) as [items|] eqn:Hit; [|by intros ?%elem_of_nil].
    intros (item & [_ Hitem]%list_elem_of_filter & Hp)%elem_of_flat_map.
    destruct (iterdir_child _ _ _ _ Hit Hitem) as [c ->].
    apply find_venvs_in_dir_depth_length in Hp as (rel & -> & Hlen).
    exists (c :: rel). split; [by rewrite <- app_assoc|]. simpl. lia.
  - apply find_venvs_in_dir_depth_length.
Qed.

(** X2: the depth limit.  A result of the sequential scan lies at most
    max_depth levels below the start directory; a result of the parallel
    scan lies at least one level below it, and at most max_depth levels when
    max_depth is positive (one level when it is not). *)
Theorem find_venvs_depth_limit fs win32 start max_depth excl parallel (p : path) :
  p ∈ find_venvs fs win32 start max_depth excl parallel →
  ∃ rel, p = start ++ rel ∧
    if parallel
    then 1 ≤ length rel ≤ Z.to_nat (Z.max max_depth 1)
    else length rel ≤ Z.to_nat max_depth.
Proof. apply find_venvs_elem_depth. Qed.

Lemma find_venvs_depth_limit_witness :
  ∃ rel, ["tmp"; "project1"; "venv"] = ["tmp"; "project1"] ++ rel ∧
         1 ≤ length rel ≤ 1.
Proof.
  apply (find_venvs_depth_limit fs_test false ["tmp"; "project1"] 0 [] true).
  decide_by_compute.
Defined.




(** With a sealed directory listed before it, an environment that the
    lookups of the model would reach is not returned; the parallel scan
    loses it as well. *)
Example find_venvs_stops_at_sealed_directory :
  FinderAccess.find_venvs sealed_dirs identifier_order fs_sealed false ["s"] 5 [] false
    = Access.Ok [] ∧
  FinderAccess.find_venvs sealed_dirs identifier_order fs_sealed false ["s"] 5 [] true
    = Access.Ok [] ∧
  find_venvs fs_sealed false ["s"] 5 [] false = [["s"; "venv"]] ∧
  FinderAccess.find_venvs sealed_dirs identifier_order fs_sealed false ["locked"] 5 []
    false = Access.Raise (OSError "[Errno 13] Permission denied: '/locked/Scripts/activate'").
Proof. split_and!; vm_compute; reflexivity. Qed.

(** A result that comes from a child comes from a listed one. *)
Lemma find_venvs_in_dir_depth_listed fs depth excl directory p :
  p ∈ find_venvs_in_dir_depth fs (S depth) excl directory →
  is_virtual_env fs directory = false →
  ∃ items c, iterdir fs directory = Some items ∧ directory ++ [c] ∈ items ∧
    eligible fs (directory ++ [c]) = true ∧
    p ∈ find_venvs_in_dir_depth fs depth excl (directory ++ [c]).
Proof.
  rewrite find_venvs_in_dir_depth_eq.
  case_bool_decide; [by intros ?%elem_of_nil|]. intros Hp Hv. rewrite Hv in Hp.
  destruct (iterdir fs directory) as [items|] eqn:Hit; [|by apply elem_of_nil in Hp].
  apply elem_of_flat_map in Hp as (item & Hitem & Hp).
  destruct (iterdir_child _ _ _ _ Hit Hitem) as [c ->].
  destruct (eligible fs (directory ++ [c])) eqn:He; [|by apply elem_of_nil in Hp].
  by exists items, c.
Qed.

Lemma find_venvs_in_dir_depth_mono fs excl excl' : ∀ depth depth' directory p,
  depth ≤ depth' → excl ⊆ excl' →
  p ∈ find_venvs_in_dir_depth fs depth excl' directory →
  p ∈ find_venvs_in_dir_depth fs depth' excl directory.
Proof.
  induction depth as [|depth IH]; intros depth' directory p Hle Hsub Hp;
    pose proof Hp as [Hn [[-> Hv]|[Hv _]]]%find_venvs_in_dir_depth_inv;
    rewrite (find_venvs_in_dir_depth_eq _ depth'), bool_decide_eq_false_2, Hv
      by (intros ?; apply Hn; by apply Hsub);
    try by left.
  - apply find_venvs_in_dir_depth_inv in Hp as [_ [[_ ?]|(_ & ? & ? & ? & _)]];
      congruence.
  - apply find_venvs_in_dir_depth_listed in Hp as (items & c & Hit & Hc & He & Hp);
      [|done].
    destruct depth' as [|depth']; [lia|]. rewrite Hit.
    apply elem_of_flat_map. exists (directory ++ [c]).
    split; [done|]. rewrite He. apply IH; [lia|done..].
Qed.

Lemma find_venvs_lookup_monotone fs win32 start max_depth max_depth' excl excl'
    parallel (p : path) :
  (max_depth ≤ max_depth')%Z →
  excl ⊆ excl' →
  p ∈ find_venvs fs win32 start max_depth excl' parallel →
  p ∈ find_venvs fs win32 start max_depth' excl parallel.
Proof.
  intros Hle Hsub.
  assert (Hset : exclude_set win32 excl ⊆ exclude_set win32 excl').
  { unfold exclude_set. intros x [Hx|Hx]%elem_of_union; [|set_solver].
    apply elem_of_union. left. apply elem_of_list_to_set.
    apply elem_of_list_to_set in Hx. by apply Hsub. }
  unfold find_venvs, find_venvs_in_dir. destruct parallel; cbn [negb].
  - destruct (iterdir fs start) as [items|]; [|done].
    intros (item & [[Hdir Hn] Hitem]%list_elem_of_filter & Hp)%elem_of_flat_map.
    apply elem_of_flat_map. exists item. split.
    + apply list_elem_of_filter. split; [|done]. split; [done|].
      intros ?. by apply Hn, Hset.
    + eapply find_venvs_in_dir_depth_mono; [|done..]. lia.
  - apply find_venvs_in_dir_depth_mono; [lia|done].
Qed.

Lemma find_venvs_deeper sealed identifiers fs win32 start max_depth max_depth'
    excl parallel found :
  (max_depth ≤ max_depth')%Z →
  FinderAccess.find_venvs sealed identifiers fs win32 start max_depth excl parallel
    = Access.Ok found →
  ∃ found',
    FinderAccess.find_venvs sealed identifiers fs win32 start max_depth' excl parallel
      = Access.Ok found' ∧
    found ⊆ found'.
Proof.
  intros Hle. unfold FinderAccess.find_venvs, FinderAccess.find_venvs_in_dir.
  destruct parallel; cbn [negb].
  - destruct (Access.iterdir sealed fs start) as [items|];
      [|intros [= <-]; by eexists].
    destruct (FinderAccess.top_dirs _ _ _ _) as [dirs|];
      [|intros [= <-]; by eexists].
    intros [= <-]. eexists. split; [done|].
    apply gather_mono. intros d. apply find_venvs_in_dir_depth_deeper. lia.
  - destruct (find_venvs_in_dir_depth_deeper sealed identifiers fs
                (exclude_set win32 excl) (Z.to_nat max_depth) (Z.to_nat max_depth')
                start) as [He Hf]; [lia|].
    destruct (FinderAccess.find_venvs_in_dir_depth _ _ _ (Z.to_nat max_depth) _ _)
      as [f e].
    destruct (FinderAccess.find_venvs_in_dir_depth _ _ _ (Z.to_nat max_depth') _ _)
      as [f' e'].
    simpl in He, Hf. subst e'. destruct e; [done|].
    intros [= <-]. by exists f'.
Qed.

(** X4: a larger max_depth never loses a result, in either mode and
    whatever directories are sealed: the deeper scan returns when the
    shallower one does, with every path of its list.  Where no directory
    at, above or below the start directory is sealed, a shorter list of
    excluded names loses no result either.  (With a sealed directory, a
    name taken off the list can lose results: see
    [find_venvs_exclusion_not_monotone].) *)
Theorem find_venvs_monotone sealed identifiers fs win32 start max_depth max_depth'
    excl excl' parallel (p : path) found :
  (max_depth ≤ max_depth')%Z →
  FinderAccess.find_venvs sealed identifiers fs win32 start max_depth excl' parallel
    = Access.Ok found →
  p ∈ found →
  (∃ found',
     FinderAccess.find_venvs sealed identifiers fs win32 start max_depth' excl' parallel
       = Access.Ok found' ∧
     p ∈ found') ∧
  (identifiers ≡ₚ VENV_IDENTIFIERS → Access.open_below sealed start → excl ⊆ excl' →
   ∃ found',
     FinderAccess.find_venvs sealed identifiers fs win32 start max_depth' excl parallel
       = Access.Ok found' ∧
     p ∈ found').
Proof.
  intros Hle Hfound Hp. split.
  - destruct (find_venvs_deeper _ _ _ _ _ _ _ _ _ _ Hle Hfound) as (found' & ? & Hsub).
    exists found'. split; [done|]. by apply Hsub.
  - intros Hids Hopen Hsub. rewrite find_venvs_open in Hfound |- * by done.
    simplify_eq. eexists. split; [done|].
    by eapply find_venvs_lookup_monotone.
Qed.

Lemma find_venvs_monotone_witness :
  (∃ found',
     FinderAccess.find_venvs sealed_dirs identifier_order fs_sealed false ["s"] 7
       ["aaa"] false = Access.Ok found' ∧
     ["s"; "venv"] ∈ found') ∧
  ∃ found',
    FinderAccess.find_venvs sealed_dirs identifier_order fs_sealed false ["home"] 7
      [] true = Access.Ok found' ∧
    ["home"; "proj"; "venv"] ∈ found'.
Proof.
  split.
  - refine (proj1 (find_venvs_monotone sealed_dirs identifier_order fs_sealed false
                     ["s"] 2 7 [] ["aaa"] false ["s"; "venv"] [["s"; "venv"]] _ _ _)).
    + lia.
    + vm_compute. reflexivity.
    + decide_by_compute.
  - refine (proj2 (find_venvs_monotone sealed_dirs identifier_order fs_sealed false
                     ["home"] 2 7 [] ["proj2"] true ["home"; "proj"; "venv"]
                     [["home"; "proj"; "venv"]] _ _ _) _ _ _).
    + lia.
    + vm_compute. reflexivity.
    + decide_by_compute.
    + decide_by_compute.
    + decide_by_compute.
    + by intros x ?%elem_of_nil.
Defined.

(** Below /s, whose first child is sealed, the scan finds /s/venv when the
    name of that child is excluded and nothing when it is not. *)
Example find_venvs_exclusion_not_monotone :
  FinderAccess.find_venvs sealed_dirs identifier_order fs_sealed false ["s"] 5 ["aaa"]
    false = Access.Ok [["s"; "venv"]] ∧
  FinderAccess.find_venvs sealed_dirs identifier_order fs_sealed false ["s"] 5 []
    false = Access.Ok [].
Proof. split; vm_compute; reflexivity. Qed.

(** X5: no listed environment lies inside another listed environment, in
    either mode. *)
Theorem find_venvs_not_nested fs win32 start max_depth excl parallel (p rel : path) :
  p ∈ find_venvs fs win32 start max_depth excl parallel →
  rel ≠ [] →
  p ++ rel ∉ find_venvs fs win32 start max_depth excl parallel.
Proof.
  intros Hp Hrel Hq.
  pose proof (find_venvs_elem_recognized _ _ _ _ _ _ _ Hp) as Hv.
  destruct (find_venvs_elem_depth _ _ _ _ _ _ _ Hp) as (rel0 & -> & Hlen).
  rewrite <- app_assoc in Hq. destruct parallel.
  - apply find_venvs_parallel_not_inside in Hq; [congruence| |done].
    intros ->. simpl in Hlen. lia.
  - apply find_venvs_sequential_not_inside in Hq; [congruence|done].
Qed.

Lemma find_venvs_not_nested_witness :
  ["proj"; "venv"] ++ ["inner"] ∉ find_venvs fs_nested false ["proj"] 5 [] true.
Proof.
  apply (find_venvs_not_nested fs_nested false ["proj"] 5 [] true).
  - decide_by_compute.
  - discriminate.
Defined.

(** X6: where directory entries have unique names, find_venvs returns no
    path twice, in either mode. *)
Theorem find_venvs_no_duplicates fs win32 start max_depth excl parallel :
  wf fs → NoDup (find_venvs fs win32 start max_depth excl parallel).
Proof. apply find_venvs_NoDup. Qed.

Lemma find_venvs_no_duplicates_witness :
  NoDup (find_venvs fs_test false ["tmp"] 5 [] true).
Proof. apply find_venvs_no_duplicates. by apply wf_b_sound. Defined.






Lemma eligible_visible fs (directory : path) (c : string) :
  eligible fs (directory ++ [c]) = true → visible c.
Proof.
  unfold eligible, visible. rewrite name_snoc.
  intros [_ Hc]%andb_true_iff Hdot. rewrite Hdot in Hc. simpl in Hc.
  rewrite orb_false_r in Hc. by apply bool_decide_eq_true in Hc.
Qed.

Lemma find_venvs_in_dir_depth_visible fs depth excl : ∀ directory (rel : path),
  directory ++ rel ∈ find_venvs_in_dir_depth fs depth excl directory →
  ∀ c, c ∈ rel → visible c.
Proof.
  induction depth as [|depth IH]; intros directory rel Hp;
    apply find_venvs_in_dir_depth_inv in Hp
      as [_ [[Heq ?]|[_ (depth' & c0 & ? & He & Hp)]]]; simplify_eq.
  - rewrite <- (app_nil_r directory) in Heq at 2. apply app_inv_head in Heq as ->.
    by intros c ?%elem_of_nil.
  - rewrite <- (app_nil_r directory) in Heq at 2. apply app_inv_head in Heq as ->.
    by intros c ?%elem_of_nil.
  - pose proof Hp as (_ & rel0 & Hrel0 & _)%find_venvs_in_dir_depth_below.
    rewrite <- app_assoc in Hrel0. apply app_inv_head in Hrel0 as ->.
    rewrite (app_assoc directory [c0] rel0) in Hp.
    intros c [->|?]%elem_of_cons; [by eapply eligible_visible|by eapply IH].
Qed.

(** X9: hidden directories.  Below the start directory, the sequential scan
    passes through no hidden name that is off the allow-list (.venv, .env,
    .virtualenv, in any case of letters), and its results bear none; the
    same holds for the parallel scan below the first level. *)
Theorem find_venvs_hidden_names fs win32 start max_depth excl parallel (rel : path) :
  start ++ rel ∈ find_venvs fs win32 start max_depth excl parallel →
  ∀ c, c ∈ (if parallel then tail rel else rel) → visible c.
Proof.
  unfold find_venvs, find_venvs_in_dir. destruct parallel; cbn [negb].
  - destruct (iterdir fs start) as [items|] eqn:Hit; [|by intros ?%elem_of_nil].
    intros (item & [_ Hitem]%list_elem_of_filter & Hp)%elem_of_flat_map.
    destruct (iterdir_child _ _ _ _ Hit Hitem) as [c0 ->].
    pose proof Hp as (_ & rel0 & Hrel0 & _)%find_venvs_in_dir_depth_below.
    rewrite <- app_assoc in Hrel0. apply app_inv_head in Hrel0 as ->.
    rewrite (app_assoc start [c0] rel0) in Hp. simpl.
    by eapply find_venvs_in_dir_depth_visible.
  - apply find_venvs_in_dir_depth_visible.
Qed.

Lemma find_venvs_hidden_names_witness : visible ".venv".
Proof.
  apply (find_venvs_hidden_names fs_test false ["tmp"] 5 [] false ["project2"; ".venv"]).
  - decide_by_compute.
  - right. left.
Defined.




End FinderExtra.

(** ** Further properties of cleaner.py *)

Module CleanerExtra.
Import FS Cleaner Examples Invariants Measures FSProofs CleanerProofs.

(** *** What a deletion leaves alone *)

Lemma lookup_alter_entry_ne f (c c' : string) es :
  c ≠ c' → lookup_entry c' (alter_entry f c es) = lookup_entry c' es.
Proof.
  intros Hne. induction es as [|[nm n] es IH]; [done|]. simpl.
  case_decide; simpl.
  - subst. destruct (f n); simpl; by rewrite ?decide_False.
  - case_decide; auto.
Qed.

Lemma lookup_alter_entry_Some (g : node → node) (c : string) es :
  lookup_entry c (alter_entry (λ ch, Some (g ch)) c es) = g <$> lookup_entry c es.
Proof.
  induction es as [|[nm n] es IH]; [done|]. simpl.
  case_decide; simpl; [by rewrite decide_True|by rewrite decide_False].
Qed.

Lemma apart_cons (c : string) (p q : path) : apart (c :: p) (c :: q) → apart p q.
Proof.
  intros [Hpq Hqp]. split; intros ?; [apply Hpq|apply Hqp]; by apply prefix_cons.
Qed.

Lemma resolve_update_apart (p : path) new : ∀ fs (q : path),
  apart p q → resolve (update p new fs) q = resolve fs q.
Proof.
  induction p as [|c p IH]; intros fs q Hpq.
  { destruct Hpq as [[] _]. apply prefix_nil. }
  destruct q as [|c' q]; [destruct Hpq as [_ []]; apply prefix_nil|].
  destruct fs as [sz s u|l r es]; [done|]. simpl.
  destruct (decide (c = c')) as [<-|Hne]; [|by rewrite lookup_alter_entry_ne].
  apply apart_cons in Hpq.
  destruct p as [|c2 p].
  { destruct Hpq as [[] _]. apply prefix_nil. }
  rewrite (lookup_alter_entry_Some (update (c2 :: p) new)).
  destruct (lookup_entry c es) as [n|]; [|done].
  exact (IH n q Hpq).
Qed.

Lemma safe_delete_venv_apart fs (venv_path q : path) cb :
  apart venv_path q →
  resolve (fs_after (safe_delete_venv fs venv_path cb)) q = resolve fs q.
Proof.
  intros Hpq.
  destruct (resolve fs venv_path) as [[sz s u|l r es]|] eqn:Hres;
    try (unfold safe_delete_venv; rewrite Hres; done).
  rewrite (safe_delete_venv_dir _ _ _ _ _ _ Hres). cbn zeta. cbn [fs_after].
  by apply resolve_update_apart.
Qed.

(** X10: safe_delete_venv leaves alone whatever lies apart from the path it
    is given: a path that is neither below the given path nor above it
    resolves after the call to what it resolved to before. *)
Theorem safe_delete_venv_frame fs (venv_path q : path) cb :
  apart venv_path q →
  resolve (fs_after (safe_delete_venv fs venv_path cb)) q = resolve fs q.
Proof. apply safe_delete_venv_apart. Qed.

Lemma safe_delete_venv_frame_witness :
  resolve (fs_after (safe_delete_venv fs_test ["tmp"; "project1"; "venv"] (Some quiet)))
    ["tmp"; "project2"; ".venv"; "bin"; "activate"]
  = resolve fs_test ["tmp"; "project2"; ".venv"; "bin"; "activate"].
Proof.
  apply safe_delete_venv_frame.
  split; intros [k Hk]; discriminate Hk.
Defined.

Lemma delete_loop_frame fmt pcb total (q : path) : ∀ paths fs d b fl,
  (∀ p, p ∈ paths → apart p q) →
  resolve (batch_fs (delete_loop fmt pcb total paths fs d b fl)) q = resolve fs q.
Proof.
  induction paths as [|path paths IH]; intros fs d b fl Hq; [done|].
  cbn [delete_loop].
  destruct (match pcb with Some _ => _ | None => _ end); [done|].
  assert (Hrest : ∀ p, p ∈ paths → apart p q) by (intros ? ?; apply Hq; by right).
  destruct (success _); rewrite IH by done; apply safe_delete_venv_apart, Hq; left.
Qed.

(** X11: delete_multiple_venvs leaves alone whatever lies apart from all the
    paths it is given, whether it returns or lets an exception of the batch
    callback through. *)
Theorem delete_multiple_venvs_frame fmt fs (paths : list path) pcb (q : path) :
  (∀ p, p ∈ paths → apart p q) →
  resolve (batch_fs (delete_multiple_venvs fmt fs paths pcb)) q = resolve fs q.
Proof. apply delete_loop_frame. Qed.

Lemma delete_multiple_venvs_frame_witness :
  resolve (batch_fs (delete_multiple_venvs percent_text fs_test
                       [["tmp"; "project1"; "venv"]; ["tmp"; "project2"; ".venv"]]
                       (Some quiet_batch)))
    ["tmp"; "requirements.txt"]
  = Some (file 24).
Proof.
  rewrite (delete_multiple_venvs_frame percent_text fs_test
             [["tmp"; "project1"; "venv"]; ["tmp"; "project2"; ".venv"]]
             (Some quiet_batch) ["tmp"; "requirements.txt"]); [reflexivity|].
  intros p [->|[->|?%elem_of_nil]%elem_of_cons]%elem_of_cons; [| |done];
    split; intros [k Hk]; discriminate Hk.
Defined.

(** *** Paths that are not directories *)




(** X13: deleting twice.  Where directory entries have unique names, after
    safe_delete_venv has returned success with an empty detail, a second
    call on the same path fails with "Directory does not exist", makes no
    progress call and changes nothing. *)
Theorem safe_delete_venv_twice fs (venv_path : path) cb cb' :
  wf fs →
  success (safe_delete_venv fs venv_path cb) = true →
  detail (safe_delete_venv fs venv_path cb) = "" →
  safe_delete_venv (fs_after (safe_delete_venv fs venv_path cb)) venv_path cb'
  = Outcome false ("Directory does not exist: " +:+ str_path venv_path)
      (fs_after (safe_delete_venv fs venv_path cb)) [].
Proof.
  intros Hwf Hs Hd.
  pose proof (clean_success_removes_path fs venv_path cb Hwf Hs Hd) as Hgone.
  unfold exists_ in Hgone. unfold safe_delete_venv at 1.
  by destruct (resolve (fs_after _) venv_path).
Qed.

Lemma safe_delete_venv_twice_witness :
  success (safe_delete_venv
             (fs_after (safe_delete_venv fs_test ["tmp"; "project1"; "venv"] None))
             ["tmp"; "project1"; "venv"] (Some quiet)) = false.
Proof.
  rewrite (safe_delete_venv_twice fs_test ["tmp"; "project1"; "venv"] None (Some quiet));
    [reflexivity| |reflexivity|reflexivity].
  by apply wf_b_sound.
Defined.

(** *** Sizes *)

Lemma fold_left_files_size es (acc : N) :
  fold_left (λ total e, match e.2 with
                        | File sz true _ => (total + sz)%N
                        | _ => total
                        end) es acc
  = (acc + files_size es)%N.
Proof.
  revert acc. induction es as [|[nm c] es IH]; intros acc; simpl; [lia|].
  rewrite IH. destruct c as [sz [] u|]; simpl; lia.
Qed.

Lemma fold_left_subdirs_size es (acc : N) :
  Forall (λ e, ∀ acc, walk_size e.2 acc = (acc + walk_size e.2 0)%N) es →
  fold_left (λ total e, walk_size e.2 total) es acc = (acc + subdirs_size es)%N.
Proof.
  intros Hes. revert acc. induction Hes as [|e es He Hes IH]; intros acc; simpl; [lia|].
  rewrite IH, He. lia.
Qed.

Lemma walk_size_acc n : ∀ acc, walk_size n acc = (acc + walk_size n 0)%N.
Proof.
  induction n as [sz s u|l r es IH] using node_ind; intros acc; simpl; [lia|].
  destruct l; [|lia].
  rewrite !fold_left_subdirs_size, !fold_left_files_size by done. lia.
Qed.

Lemma walk_size_Dir l r es :
  walk_size (Dir l r es) 0 = if l then (files_size es + subdirs_size es)%N else 0%N.
Proof.
  simpl. destruct l; [|done].
  rewrite fold_left_subdirs_size, fold_left_files_size; [lia|].
  apply Forall_forall. intros e _. apply walk_size_acc.
Qed.

Lemma walk_size_total_bytes n :
  (match n with
   | File sz s _ => True
   | Dir _ _ _ => walk_size n 0 ≤ total_bytes n ∧
                  (all_readable n = true → walk_size n 0 = total_bytes n)
   end)%N.
Proof.
  induction n as [sz s u|l r es IH] using node_ind; [done|].
  rewrite walk_size_Dir. simpl total_bytes. simpl all_readable.
  assert (Hsum : (files_size es + subdirs_size es
                  ≤ fold_right (λ e acc, total_bytes e.2 + acc) 0 es)%N ∧
                 (forallb (λ e, all_readable e.2) es = true →
                  files_size es + subdirs_size es
                  = fold_right (λ e acc, total_bytes e.2 + acc) 0 es)%N).
  { induction IH as [|[nm c] es Hc _ IHes]; [done|].
    destruct IHes as [Hle Heq]. simpl.
    destruct c as [sz s u|l' r' es'].
    - simpl. split.
      + destruct s; lia.
      + intros [-> ?]%andb_true_iff. rewrite <- Heq by done. lia.
    - simpl in Hc. destruct Hc as [Hc1 Hc2].
      change (total_bytes (Dir l' r' es')) with
        (fold_right (λ e acc, total_bytes e.2 + acc)%N 0%N es') in *.
      split.
      + simpl in *. lia.
      + intros [? ?]%andb_true_iff. rewrite <- Heq by done.
        simpl in *. rewrite <- Hc2 by done. lia. }
  destruct Hsum as [Hle Heq]. destruct l; simpl.
  - split; [done|]. apply Heq.
  - split; [lia|done].
Qed.

(** X14: the size measured before a deletion is a lower bound of the bytes
    of the files below the directory, and it is exact when every directory
    below can be listed and every file can be stat'ed. *)
Theorem dir_size_lower_bound fs (p : path) l r es :
  resolve fs p = Some (Dir l r es) →
  (dir_size fs p ≤ total_bytes (Dir l r es))%N ∧
  (all_readable (Dir l r es) = true → dir_size fs p = total_bytes (Dir l r es)).
Proof.
  intros Hres. unfold dir_size. rewrite Hres.
  apply (walk_size_total_bytes (Dir l r es)).
Qed.

Lemma dir_size_lower_bound_witness :
  (dir_size fs_all_locked ["v"] ≤ 10)%N ∧ dir_size fs_test ["tmp"] = 117%N.
Proof.
  split.
  - apply (dir_size_lower_bound fs_all_locked ["v"] true true
             [("a", File 1 true false); ("b", File 2 true false);
              ("c", File 3 false true); ("d", File 4 true false)] eq_refl).
  - refine (proj2 (dir_size_lower_bound fs_test ["tmp"] true true _ eq_refl) _).
    reflexivity.
Defined.

(** *** The progress calls against the measured size *)

Lemma file_step_bytes cb total root (e : string * node) st :
  (bytes_removed (file_step cb total root e st)
   ≤ bytes_removed st + match e.2 with File sz true _ => sz | _ => 0 end)%N.
Proof.
  unfold file_step. destruct (raised st); [lia|].
  destruct e as [nm [sz s u|l r es]]; simpl; [|lia].
  unfold delete_file. destruct s; simpl; [|lia]. destruct u; simpl; [|lia].
  destruct cb as [f|]; simpl; [|lia]. destruct (f _ _) as [[]|]; simpl; lia.
Qed.

Lemma delete_files_bytes cb total root es st :
  (bytes_removed (delete_files cb total root es st).2
   ≤ bytes_removed st + files_size es)%N.
Proof.
  rewrite delete_files_snd. revert st.
  induction es as [|e es IH]; intros st; simpl; [lia|].
  etrans; [apply IH|]. pose proof (file_step_bytes cb total root e st).
  destruct e as [nm [sz [] u|]]; simpl in *; lia.
Qed.

Lemma delete_dirs_bytes root es st :
  bytes_removed (delete_dirs root es st).2 = bytes_removed st.
Proof.
  rewrite delete_dirs_snd. revert st.
  induction es as [|e es IH]; intros st; simpl; [done|].
  rewrite IH. unfold dir_step.
  destruct (raised st), e.2; try destruct (rmdir _ _); done.
Qed.

Lemma walk_subdirs_files_size cb total root es st :
  files_size (walk_subdirs (delete_walk cb total) root es st).1 = files_size es.
Proof.
  revert st. induction es as [|[nm c] es IH]; intros st; [done|].
  simpl. destruct (delete_walk _ _ _ c st) as [c' st'] eqn:Hc.
  specialize (IH st'). destruct (walk_subdirs _ _ es st') as [es' st''].
  simpl in *. rewrite IH. destruct c as [sz s u|l r es0].
  - simpl in Hc. by simplify_eq.
  - destruct (delete_walk_dir cb total (root ++ [nm]) l r es0 st) as [es1 Hes1].
    rewrite Hc in Hes1. simpl in Hes1. by subst.
Qed.

Lemma delete_walk_bytes cb total n : ∀ root st,
  (bytes_removed (delete_walk cb total root n st).2
   ≤ bytes_removed st + walk_size n 0)%N.
Proof.
  induction n as [sz s u|l r es IH] using node_ind; intros root st; [simpl; lia|].
  rewrite delete_walk_snd, walk_size_Dir. destruct l; [|lia]. cbn zeta.
  rewrite delete_dirs_bytes. etrans; [apply delete_files_bytes|].
  rewrite walk_subdirs_files_size, walk_subdirs_snd.
  assert (bytes_removed
            (fold_left (λ st e, (delete_walk cb total (root ++ [e.1]) e.2 st).2) es st)
          ≤ bytes_removed st + subdirs_size es)%N; [|lia].
  clear -IH. revert st. induction IH as [|e es He _ IHes]; intros st; simpl; [lia|].
  etrans; [apply IHes|]. specialize (He (root ++ [e.1]) st). lia.
Qed.

Lemma remove_root_bytes venv_path n st :
  bytes_removed (remove_root venv_path n st).2 = bytes_removed st.
Proof.
  unfold remove_root.
  by destruct (raised st), (rmdir venv_path n), (rmtree (str_path venv_path) venv_path n).
Qed.

Lemma deletion_bytes venv_path n cb :
  (bytes_removed (deletion venv_path n cb).2 ≤ walk_size n 0)%N.
Proof.
  unfold deletion.
  pose proof (delete_walk_bytes cb (walk_size n 0) n venv_path (Progress 0 [] [] None)).
  destruct (delete_walk _ _ _ _ _) as [n' st]. rewrite remove_root_bytes.
  simpl in *. lia.
Qed.

(** Every call so far carries [total]. *)
Lemma deletion_calls_total venv_path n cb (c : N * N) :
  c ∈ calls (deletion venv_path n cb).2 → c.2 = walk_size n 0.
Proof.
  revert c.
  apply (deletion_preserves cb (λ st, ∀ c, c ∈ calls st → c.2 = walk_size n 0)).
  - intros root nm sz s u st _ Hst c. unfold delete_file.
    destruct s; [|by apply Hst]. destruct u; [|by apply Hst]. cbn [negb].
    destruct cb as [f|]; [|by apply Hst].
    destruct (f _ _) as [[]|]; simpl;
      intros [?| ->%list_elem_of_singleton]%elem_of_app; auto.
  - done.
  - by intros c ?%elem_of_nil.
Qed.

(** X15: progress never passes 100%.  In every progress call of
    safe_delete_venv the total is the size measured before the deletion and
    bytes_done is not larger than the total. *)
Theorem progress_calls_within_total fs (venv_path : path) cb (b t : N) :
  (b, t) ∈ progress_calls (safe_delete_venv fs venv_path cb) →
  t = dir_size fs venv_path ∧ (b ≤ t)%N.
Proof.
  destruct (resolve fs venv_path) as [[sz s u|l r es]|] eqn:Hres;
    try (unfold safe_delete_venv; rewrite Hres; by intros ?%elem_of_nil).
  rewrite (safe_delete_venv_dir _ _ _ _ _ _ Hres). cbn zeta. cbn [progress_calls].
  unfold dir_size. rewrite Hres. intros Hin.
  pose proof (deletion_calls_total _ _ _ _ Hin) as Ht.
  change (t = walk_size (Dir l r es) 0) in Ht. subst t.
  split; [done|].
  assert (calls_in_order (deletion venv_path (Dir l r es) cb).2) as [_ Hb].
  { apply deletion_preserves.
    - intros. by apply delete_file_calls_in_order.
    - done.
    - split; simpl; [by intros ???? _ ?|by intros ? ?%elem_of_nil]. }
  etrans; [|apply deletion_bytes]. apply Hb.
  by apply (list_elem_of_fmap_2 fst) in Hin.
Qed.

Lemma progress_calls_within_total_witness :
  75%N = dir_size fs_empty_files ["w"] ∧ (5 ≤ 75)%N.
Proof.
  apply (progress_calls_within_total fs_empty_files ["w"] (Some quiet)).
  decide_by_compute.
Defined.

(** *** Failures do not stop the walk *)

Lemma delete_file_tame cb total root nm sz s u st :
  tame cb → raised st = None →
  raised (delete_file cb total root nm sz s u st).2 = None.
Proof.
  intros Hcb Hst. unfold delete_file.
  destruct s; [|done]. destruct u; [|done]. cbn [negb].
  destruct cb as [f|]; [|done].
  destruct (f _ _) as [e|] eqn:Hf; [|done].
  specialize (Hcb f _ _ e eq_refl Hf). by destruct e.
Qed.

Lemma delete_walk_tame cb total n root st :
  tame cb → raised st = None → raised (delete_walk cb total root n st).2 = None.
Proof.
  intros Hcb. apply (delete_walk_preserves cb total (λ st, raised st = None)).
  - intros. by apply delete_file_tame.
  - done.
Qed.

Lemma delete_files_spent cb total root : ∀ es st,
  tame cb → raised st = None → Forall spent_dir es →
  Forall spent (delete_files cb total root es st).1.
Proof.
  induction es as [|[nm c] es IH]; intros st Hcb Hst Hes; [by constructor|].
  apply Forall_cons in Hes as [Hc Hes]. simpl. rewrite Hst.
  destruct c as [sz s u|l r es0].
  - pose proof (delete_file_tame cb total root nm sz s u st Hcb Hst) as Hst1.
    destruct (delete_file _ _ _ _ _ _ _ _) as [gone st1] eqn:Hdel. simpl in Hst1.
    specialize (IH st1 Hcb Hst1 Hes).
    destruct (delete_files _ _ _ es st1) as [es' st2]. simpl in *.
    destruct gone; [done|]. constructor; [|done].
    unfold spent. simpl. unfold delete_file in Hdel.
    destruct s; [|done]. destruct u; [|done]. simpl in Hdel.
    destruct cb as [f|]; [destruct (f _ _) as [[]|]|]; by simplify_eq.
  - specialize (IH st Hcb Hst Hes).
    destruct (delete_files _ _ _ es st) as [es' st2]. simpl in *.
    by constructor.
Qed.

Lemma delete_dirs_Forall (Q : string * node → Prop) root : ∀ es st,
  Forall Q es → Forall Q (delete_dirs root es st).1.
Proof.
  induction es as [|[nm c] es IH]; intros st Hes; [by constructor|].
  apply Forall_cons in Hes as [Hc Hes]. simpl.
  destruct (raised st), c; try destruct (rmdir _ _);
    repeat match goal with
           | |- context [delete_dirs root es ?st] =>
               let H := fresh in
               pose proof (IH st Hes) as H; destruct (delete_dirs root es st)
           end; simpl in *; try done; by constructor.
Qed.

Lemma delete_walk_spent cb total n :
  tame cb → ∀ root st, raised st = None →
  spent_dir ("", (delete_walk cb total root n st).1).
Proof.
  intros Hcb. induction n as [sz s u|l r es IH] using node_ind; intros root st Hst; [done|].
  unfold spent_dir. cbn [snd].
  destruct (delete_walk_dir cb total root l r es st) as [es3 Hes3]. rewrite Hes3.
  simpl in Hes3. destruct l; simpl in *; [|done].
  destruct (walk_subdirs _ _ es st) as [es1 st1] eqn:H1.
  destruct (delete_files _ _ _ es1 st1) as [es2 st2] eqn:H2.
  destruct (delete_dirs root es2 st2) as [es3' st3] eqn:H3. simplify_eq/=.
  assert (Hst1 : raised st1 = None ∧ Forall spent_dir es1).
  { clear H2 H3. revert st es1 st1 Hst H1.
    induction IH as [|[nm c] es Hc _ IHes]; intros st es1 st1 Hst H1;
      simpl in H1; [by simplify_eq|].
    pose proof (Hc (root ++ [nm]) st Hst) as Hc'. cbn [snd] in Hc'.
    pose proof (delete_walk_tame cb total c (root ++ [nm]) st Hcb Hst) as Hst'.
    destruct (delete_walk _ _ _ c st) as [c' st'].
    destruct (walk_subdirs _ _ es st') as [es' st''] eqn:Hw.
    injection H1 as <- <-. simpl in Hst'.
    destruct (IHes st' es' st'' Hst' Hw) as [? ?].
    split; [done|]. by constructor. }
  destruct Hst1 as [Hst1 Hes1].
  pose proof (delete_files_spent cb total root es1 st1 Hcb Hst1 Hes1) as Hes2.
  rewrite H2 in Hes2. simpl in Hes2.
  pose proof (delete_dirs_Forall spent root es2 st2 Hes2) as Hes3.
  rewrite H3 in Hes3. simpl in Hes3.
  apply not_true_is_false. intros ([nm c] & Hin & Hd)%existsb_exists.
  apply list_elem_of_In in Hin. rewrite Forall_forall in Hes3.
  specialize (Hes3 _ Hin). unfold spent in Hes3. simpl in *. congruence.
Qed.

Lemma rmtree_spent n : ∀ filename p n' e,
  has_deletable_file n = false → rmtree filename p n = Failed n' e →
  has_deletable_file n' = false.
Proof.
  induction n as [sz s u|l r es IH] using node_ind; intros filename p n' e Hn.
  { simpl. destruct u; [done|]. by intros [= <- _]. }
  simpl. destruct l; simpl; [|by intros [= <- _]].
  simpl in Hn.
  assert (Hes : ∀ es' e', rmtree_entries rmtree p es = inr (es', e') →
                  existsb (λ e, has_deletable_file e.2) es' = false).
  { clear n' e. revert Hn. induction IH as [|[nm c] es Hc _ IHes]; intros Hn es' e';
      simpl; [done|].
    simpl in Hn. apply orb_false_iff in Hn as [Hcn Hn].
    destruct (rmtree nm (p ++ [nm]) c) as [|c' e0] eqn:Hrm; [by apply IHes|].
    intros [= <- _]. simpl. rewrite Hn, orb_false_r. by eapply Hc. }
  destruct (rmtree_entries rmtree p es) as [[]|[es' e']].
  - destruct (rmdir p (Dir true r [])) eqn:Hrmdir; simpl in Hrmdir; rewrite Hrmdir;
      [|done]. by intros [= <- _].
  - intros [= <- _]. simpl. by apply Hes with e'.
Qed.

Lemma resolve_update_Some (p : path) (new : node) : ∀ fs n,
  resolve fs p = Some n → resolve (update p (Some new) fs) p = Some new.
Proof.
  induction p as [|c p IH]; intros fs n Hres; [done|].
  destruct fs as [sz s u|l r es]; [done|]. simpl in *.
  destruct (lookup_entry c es) as [ch|] eqn:Hch; [|done]. simpl in Hres.
  destruct p as [|c2 p].
  - rewrite (lookup_alter_entry_Some (λ _, new)), Hch. done.
  - rewrite (lookup_alter_entry_Some (update (c2 :: p) (Some new))), Hch.
    simpl (_ <$> _). simpl (Some _ ≫= _). by apply IH with n.
Qed.

(** X16: a failure does not stop the walk.  With a callback that raises
    nothing but OSError (or none) and unique entry names, what
    safe_delete_venv leaves of a directory holds no file that the walk
    reaches and can stat and unlink: every such file has been deleted,
    whatever went wrong elsewhere. *)
Theorem safe_delete_venv_deletes_what_it_can fs (venv_path : path) cb (n' : node) :
  wf fs → tame cb → is_dir fs venv_path = true →
  resolve (fs_after (safe_delete_venv fs venv_path cb)) venv_path = Some n' →
  has_deletable_file n' = false.
Proof.
  intros Hwf Hcb Hdir. unfold is_dir in Hdir.
  destruct (resolve fs venv_path) as [[sz s u|l r es]|] eqn:Hres; try done.
  rewrite (safe_delete_venv_dir _ _ _ _ _ _ Hres). cbn zeta. cbn [fs_after].
  unfold deletion.
  pose proof (delete_walk_spent cb (walk_size (Dir l r es) 0) (Dir l r es) Hcb
                venv_path (Progress 0 [] [] None) eq_refl) as Hspent.
  destruct (delete_walk_dir cb (walk_size (Dir l r es) 0) venv_path l r es
              (Progress 0 [] [] None)) as [es' Hes'].
  destruct (delete_walk _ _ _ _ _) as [n1 st1]. simpl in Hes'. subst n1.
  unfold spent_dir in Hspent. cbn [fst snd] in Hspent.
  unfold remove_root. destruct (raised st1).
  { cbn [fst]. rewrite (resolve_update_Some _ _ _ _ Hres). by intros [= <-]. }
  destruct (rmdir venv_path (Dir l r es')) eqn:Hrmdir.
  - destruct (rmtree _ venv_path (Dir l r es')) as [|n2 e2] eqn:Hrm; cbn [fst].
    + destruct (decide (venv_path = [])) as [->|Hne]; [by apply rmtree_root in Hrm|].
      by rewrite resolve_update_None.
    + rewrite (resolve_update_Some _ _ _ _ Hres). intros [= <-].
      by eapply rmtree_spent.
  - cbn [fst]. destruct (decide (venv_path = [])) as [->|Hne].
    + by vm_compute in Hrmdir.
    + by rewrite resolve_update_None.
Qed.

Lemma safe_delete_venv_deletes_what_it_can_witness :
  resolve (fs_after (safe_delete_venv fs_locked ["v"] None)) ["v"]
    = Some (dir [("b", File 20 true false)]) ∧
  has_deletable_file (dir [("b", File 20 true false)]) = false.
Proof.
  split; [reflexivity|].
  apply (safe_delete_venv_deletes_what_it_can fs_locked ["v"] None).
  - by apply wf_b_sound.
  - by intros f b t e [=].
  - reflexivity.
  - reflexivity.
Defined.

(** *** A directory on which nothing fails *)

Lemma clean_from_refl st : raised st = None → clean_from st st 0.
Proof. intros ?. split_and!; [done..|lia]. Qed.

Lemma clean_from_trans st1 st2 st3 a b :
  clean_from st1 st2 a → clean_from st2 st3 b → clean_from st1 st3 (a + b).
Proof. intros (? & ? & ?) (? & ? & ?). split_and!; [congruence|done|lia]. Qed.

Lemma delete_file_clean cb total root nm sz st :
  silent cb → raised st = None →
  delete_file cb total root nm sz true true st
  = (true, (delete_file cb total root nm sz true true st).2) ∧
  clean_from st (delete_file cb total root nm sz true true st).2 sz.
Proof.
  intros Hcb Hst. unfold delete_file. cbn [negb].
  destruct cb as [f|]; [rewrite (Hcb f _ _ eq_refl)|]; by split.
Qed.

Lemma delete_files_clean cb total root : ∀ es st,
  silent cb → raised st = None → Forall (λ e, ready e.2) es →
  Forall (λ e, match e.2 with Dir _ true [] => True | _ => False end)
    (delete_files cb total root es st).1 ∧
  clean_from st (delete_files cb total root es st).2 (files_size es).
Proof.
  induction es as [|[nm c] es IH]; intros st Hcb Hst Hes.
  { split; [by constructor|by apply clean_from_refl]. }
  apply Forall_cons in Hes as [Hc Hes]. simpl. rewrite Hst.
  destruct c as [sz s u|l r es0]; simpl in Hc.
  - apply andb_true_iff in Hc as [-> ->].
    destruct (delete_file_clean cb total root nm sz st Hcb Hst) as [Hdel Hclean].
    rewrite Hdel. destruct Hclean as (He & Hr & Hb).
    destruct (IH _ Hcb Hr Hes) as [Hall (He' & Hr' & Hb')].
    destruct (delete_files _ _ _ es _) as [es' st2]. simpl in *.
    split; [done|]. split_and!; [congruence|done|lia].
  - destruct Hc as [-> ->].
    destruct (IH _ Hcb Hst Hes) as [Hall Hclean].
    destruct (delete_files _ _ _ es st) as [es' st2]. simpl in *.
    split; [by constructor|done].
Qed.

Lemma delete_dirs_clean root : ∀ es st,
  raised st = None →
  Forall (λ e, match e.2 with Dir _ true [] => True | _ => False end) es →
  delete_dirs root es st = ([], st).
Proof.
  induction es as [|[nm c] es IH]; intros st Hst Hes; [done|].
  apply Forall_cons in Hes as [Hc Hes]. simpl. rewrite Hst.
  destruct c as [|l [] [|]]; try done. simpl.
  rewrite decide_False by (by destruct root). by apply IH.
Qed.

Lemma delete_walk_clean cb total n :
  silent cb → all_ok n = true → ∀ root st, raised st = None →
  ready (delete_walk cb total root n st).1 ∧
  clean_from st (delete_walk cb total root n st).2 (walk_size n 0).
Proof.
  intros Hcb. induction n as [sz s u|l r es IH] using node_ind;
    intros Hok root st Hst.
  { split; [done|by apply clean_from_refl]. }
  simpl in Hok. apply andb_true_iff in Hok as [[-> ->]%andb_true_iff Hok].
  rewrite walk_size_Dir.
  assert (Hsub : Forall (λ e, ready e.2)
                   (walk_subdirs (delete_walk cb total) root es st).1 ∧
                 clean_from st (walk_subdirs (delete_walk cb total) root es st).2
                   (subdirs_size es)).
  { clear -IH Hok Hst. revert st Hst.
    induction IH as [|[nm c] es Hc _ IHes]; intros st Hst.
    { split; [by constructor|by apply clean_from_refl]. }
    simpl in Hok. apply andb_true_iff in Hok as [Hcok Hok].
    destruct (Hc Hcok (root ++ [nm]) st Hst) as [Hready Hclean].
    cbn [snd] in Hready, Hclean. simpl.
    destruct (delete_walk _ _ _ c st) as [c' st'] eqn:Hw.
    simpl in Hready, Hclean.
    destruct (IHes Hok st') as [Hall Hclean']; [apply (proj1 (proj2 Hclean))|].
    destruct (walk_subdirs _ _ es st') as [es' st''] eqn:Hw'.
    simpl in Hall, Hclean' |- *.
    split; [by constructor|]. by eapply clean_from_trans. }
  destruct Hsub as [Hready Hclean1].
  pose proof (walk_subdirs_files_size cb total root es st) as Hfs.
  simpl. destruct (walk_subdirs _ _ es st) as [es1 st1]. simpl in *.
  destruct (delete_files_clean cb total root es1 st1 Hcb (proj1 (proj2 Hclean1)) Hready)
    as [Hempty Hclean2].
  destruct (delete_files _ _ _ es1 st1) as [es2 st2]. simpl in *.
  rewrite (delete_dirs_clean root es2 st2) by (apply Hclean2 || done).
  split; [done|]. rewrite Hfs in Hclean2.
  pose proof (clean_from_trans _ _ _ _ _ Hclean1 Hclean2) as Hclean.
  by rewrite N.add_comm.
Qed.

(** With a callback, the last call carries the bytes removed so far. *)
Lemma deletion_last_call venv_path n f (c : N * N) :
  last (calls (deletion venv_path n (Some f)).2) = Some c →
  c.1 = bytes_removed (deletion venv_path n (Some f)).2.
Proof.
  revert c.
  apply (deletion_preserves (Some f)
           (λ st, ∀ c, last (calls st) = Some c → c.1 = bytes_removed st)).
  - intros root nm sz s u st _ Hst c. unfold delete_file.
    destruct s; [|by apply Hst]. destruct u; [|by apply Hst]. cbn [negb].
    destruct (f _ _) as [[]|]; simpl; rewrite last_snoc; by intros [= <-].
  - done.
  - done.
Qed.

(** X17: a directory on which nothing fails is deleted whole.  Where entry
    names are unique, every directory below the path can be listed and
    removed, every file below it can be stat'ed and unlinked, and the
    callback never raises, safe_delete_venv returns success with an empty
    detail, the path no longer exists, and the last progress call, if there
    is one, reports the measured size as both bytes_done and total. *)
Theorem safe_delete_venv_clean fs (venv_path : path) l r es cb :
  wf fs →
  resolve fs venv_path = Some (Dir l r es) →
  venv_path ≠ [] →
  all_ok (Dir l r es) = true →
  silent cb →
  let out := safe_delete_venv fs venv_path cb in
  success out = true ∧ detail out = "" ∧
  exists_ (fs_after out) venv_path = false ∧
  ∀ c, last (progress_calls out) = Some c →
       c = (dir_size fs venv_path, dir_size fs venv_path).
Proof.
  intros Hwf Hres Hne Hok Hcb out.
  assert (Hdel : (deletion venv_path (Dir l r es) cb).1 = None ∧
                 clean_from (Progress 0 [] [] None)
                   (deletion venv_path (Dir l r es) cb).2
                   (walk_size (Dir l r es) 0)).
  { unfold deletion.
    pose proof (delete_walk_clean cb (walk_size (Dir l r es) 0) (Dir l r es) Hcb Hok
                  venv_path (Progress 0 [] [] None) eq_refl) as [Hready Hclean].
    destruct (delete_walk_dir cb (walk_size (Dir l r es) 0) venv_path l r es
                (Progress 0 [] [] None)) as [es1 Hd].
    destruct (delete_walk _ _ _ _ _) as [n1 st1].
    cbn [fst snd] in Hd, Hready, Hclean. subst n1.
    destruct Hready as [-> ->]. destruct Hclean as (He & Hr & Hb).
    unfold remove_root. rewrite Hr. simpl. rewrite decide_False by done.
    by split_and!. }
  destruct Hdel as [Hnone (Herr & Hraised & Hbytes)].
  assert (Hout : success out = true ∧ detail out = "").
  { subst out. rewrite (safe_delete_venv_dir _ _ _ _ _ _ Hres). cbn zeta.
    cbn [success detail]. unfold report. rewrite Hraised, Herr. done. }
  destruct Hout as [Hs Hd]. split_and!; [done..| |].
  - by apply clean_success_removes_path.
  - subst out. rewrite (safe_delete_venv_dir _ _ _ _ _ _ Hres). cbn zeta.
    cbn [progress_calls]. unfold dir_size. rewrite Hres. intros [b t] Hlast.
    destruct cb as [f|].
    + pose proof (deletion_last_call _ _ _ _ Hlast) as Hb.
      assert ((b, t) ∈ calls (deletion venv_path (Dir l r es) (Some f)).2) as Hin.
      { destruct (calls _) as [|c cs] using rev_ind; [done|].
        rewrite last_snoc in Hlast. simplify_eq. apply elem_of_app. right. left. }
      apply deletion_calls_total in Hin. simpl in Hb, Hin.
      change (t = walk_size (Dir l r es) 0) in Hin. subst.
      f_equal. rewrite Hbytes. simpl. lia.
    + exfalso. revert Hlast.
      apply (deletion_preserves None (λ st, last (calls st) = Some (b, t) → False)).
      * intros root nm sz s u st _ Hst. unfold delete_file.
        destruct s; [|done]. by destruct u.
      * done.
      * done.
Qed.

Lemma safe_delete_venv_clean_witness :
  success (safe_delete_venv fs_empty_files ["w"] (Some quiet)) = true ∧
  last (progress_calls (safe_delete_venv fs_empty_files ["w"] (Some quiet)))
    = Some (75%N, 75%N).
Proof.
  destruct (safe_delete_venv_clean fs_empty_files ["w"] true true
              [("pyvenv.cfg", file 70); ("lib", dir [("x", file 5)])] (Some quiet))
    as (Hs & _ & _ & Hlast).
  - by apply wf_b_sound.
  - reflexivity.
  - discriminate.
  - reflexivity.
  - by intros f b t [= <-].
  - split; [exact Hs|].
    destruct (last _) as [c|] eqn:Hc; [|by vm_compute in Hc].
    by rewrite (Hlast c eq_refl).
Defined.

(** Every error message recorded so far begins with "Error". *)
Lemma add_error_worded msg st :
  worded st → (∃ rest, msg = "Error" +:+ rest) → worded (add_error msg st).
Proof.
  intros Hst Hmsg x [?| ->%list_elem_of_singleton]%elem_of_app; auto.
Qed.

Lemma delete_file_worded cb total root nm sz s u st :
  worded st → worded (delete_file cb total root nm sz s u st).2.
Proof.
  intros Hst. unfold delete_file.
  destruct s; [|apply add_error_worded; [done|by eexists]].
  destruct u; [|apply add_error_worded; [done|by eexists]]. cbn [negb].
  destruct cb as [f|]; [|done].
  destruct (f _ _) as [[]|]; try done.
  apply add_error_worded; [done|by eexists].
Qed.

Lemma delete_walk_worded cb total n : ∀ root st,
  worded st → worded (delete_walk cb total root n st).2.
Proof.
  induction n as [sz s u|l r es IH] using node_ind; intros root st Hst; [done|].
  rewrite delete_walk_snd. destruct l; [|done]. cbn zeta.
  rewrite delete_dirs_snd. apply fold_left_preserves.
  { intros st' e _ Hst'. unfold dir_step.
    destruct (raised st'), e.2; try destruct (rmdir _ _); try done.
    apply add_error_worded; [done|by eexists]. }
  rewrite delete_files_snd. apply fold_left_preserves.
  { intros st' e _ Hst'. unfold file_step.
    destruct (raised st'), e.2; try done. by apply delete_file_worded. }
  rewrite walk_subdirs_snd. apply fold_left_preserves; [|done].
  intros st' e He ?. rewrite Forall_forall in IH. by apply IH.
Qed.

Lemma deletion_worded venv_path n cb : worded (deletion venv_path n cb).2.
Proof.
  unfold deletion.
  pose proof (delete_walk_worded cb (walk_size n 0) n venv_path (Progress 0 [] [] None))
    as Hwalk.
  destruct (delete_walk _ _ _ _ _) as [n1 st1]. simpl in Hwalk.
  unfold remove_root.
  destruct (raised st1), (rmdir venv_path n1), (rmtree (str_path venv_path) venv_path n1); simpl;
    try (apply Hwalk; by intros ? ?%elem_of_nil).
  apply add_error_worded; [|by eexists]. apply Hwalk. by intros ? ?%elem_of_nil.
Qed.

(** X18: the other side of C10.  Called by delete_multiple_venvs with a
    batch callback that never raises, on a directory whose measured size is
    not 0, safe_delete_venv lets no exception escape its walk: its result is
    never the "Unexpected error during deletion" one. *)
Theorem venv_progress_no_exception fmt fs (D : path) l r es f venvs_deleted total_venvs :
  resolve fs D = Some (Dir l r es) →
  dir_size fs D ≠ 0%N →
  (∀ d t text, f d t text = None) →
  let cb := Some (venv_progress fmt (Some f) venvs_deleted total_venvs D) in
  raised (deletion D (Dir l r es) cb).2 = None ∧
  ∀ e, detail (safe_delete_venv fs D cb)
       ≠ "Unexpected error during deletion: " +:+ str_exn e.
Proof.
  intros Hres Hsize Hf cb. unfold dir_size in Hsize. rewrite Hres in Hsize.
  assert (Hr : raised (deletion D (Dir l r es) cb).2 = None).
  { destruct (raised _) as [e|] eqn:Hraised; [exfalso|done].
    destruct (deletion_raised_by_callback cb D (Dir l r es) e Hraised)
      as (g & c & [= <-] & Hlast & Hg & _).
    assert (c ∈ calls (deletion D (Dir l r es) cb).2) as Hin.
    { destruct (calls _) as [|c' cs] using rev_ind; [done|].
      rewrite last_snoc in Hlast. simplify_eq. apply elem_of_app. right. left. }
    apply deletion_calls_total in Hin.
    unfold venv_progress in Hg. rewrite Hin in Hg.
    apply N.eqb_neq in Hsize. rewrite Hsize in Hg. by rewrite Hf in Hg. }
  split; [done|]. intros e.
  rewrite (safe_delete_venv_dir _ _ _ _ _ _ Hres). cbn zeta. cbn [detail].
  unfold report. rewrite Hr.
  pose proof (deletion_worded D (Dir l r es) cb) as Hworded.
  destruct (errors _) as [|err errs] eqn:Herr; [done|].
  destruct (0 <? _)%N; [done|]. cbn [snd].
  destruct (Hworded err) as [rest ->]; [rewrite Herr; left|].
  by destruct errs as [|? [|? ?]].
Qed.

(** /w of [fs_empty_files] measures 75 bytes; the wrapper is called after
    each of its two files and the deletion ends without an exception. *)
Lemma venv_progress_no_exception_witness :
  progress_calls (safe_delete_venv fs_empty_files ["w"]
                    (Some (venv_progress percent_text (Some quiet_batch) 0 1 ["w"])))
  = [(5, 75); (75, 75)]%N ∧
  raised (deletion ["w"] (dir [("pyvenv.cfg", file 70); ("lib", dir [("x", file 5)])])
            (Some (venv_progress percent_text (Some quiet_batch) 0 1 ["w"]))).2 = None ∧
  detail (safe_delete_venv fs_empty_files ["w"]
            (Some (venv_progress percent_text (Some quiet_batch) 0 1 ["w"])))
  ≠ "Unexpected error during deletion: division by zero".
Proof.
  split; [reflexivity|].
  pose proof (venv_progress_no_exception percent_text fs_empty_files ["w"] true true
                [("pyvenv.cfg", file 70); ("lib", dir [("x", file 5)])]
                quiet_batch 0 1 eq_refl) as Hw.
  destruct Hw as [Hraised Hdetail].
  - discriminate.
  - reflexivity.
  - split; [exact Hraised|].
    exact (Hdetail (ZeroDivisionError "division by zero")).
Defined.

(** *** Batches in two parts *)

Lemma venv_progress_None fmt d t (p : path) :
  venv_progress fmt None d t p = λ _ _, None.
Proof. done. Qed.

Lemma delete_loop_None_acc fmt : ∀ paths total total' fs d b fl,
  delete_loop fmt None total paths fs d b fl
  = batch_then (Returned fs d b fl)
      (λ fs, delete_loop fmt None total' paths fs 0 0 []).
Proof.
  induction paths as [|path paths IH]; intros total total' fs d b fl.
  { simpl. by rewrite Nat.add_0_r, N.add_0_r, app_nil_r. }
  cbn [delete_loop batch_then]. rewrite !venv_progress_None.
  destruct (success _).
  - rewrite (IH total total' _ (S d)), (IH total' total' _ 1). cbn [batch_then].
    destruct (delete_loop fmt None total' paths _ 0 0 []); [|done].
    f_equal; lia.
  - rewrite (IH total total' _ d), (IH total' total' _ 0 _ ([] ++ _)).
    cbn [batch_then].
    destruct (delete_loop fmt None total' paths _ 0 0 []); [|done].
    by rewrite <- app_assoc.
Qed.

Lemma delete_loop_app fmt total paths2 : ∀ paths1 fs d b fl,
  delete_loop fmt None total (paths1 ++ paths2) fs d b fl
  = match delete_loop fmt None total paths1 fs d b fl with
    | Returned fs1 d1 b1 fl1 => delete_loop fmt None total paths2 fs1 d1 b1 fl1
    | Raised fs1 e => Raised fs1 e
    end.
Proof.
  induction paths1 as [|path paths1 IH]; intros fs d b fl; [done|].
  cbn [app delete_loop]. by destruct (success _).
Qed.

(** X19: a batch in two parts.  Without a callback, delete_multiple_venvs on
    two lists of paths joined is delete_multiple_venvs on the first list
    followed by delete_multiple_venvs on the second, run on the file system
    the first one leaves: the counts and the bytes add up and the failures
    follow one another. *)
Theorem delete_multiple_venvs_app fmt fs (paths1 paths2 : list path) :
  delete_multiple_venvs fmt fs (paths1 ++ paths2) None
  = batch_then (delete_multiple_venvs fmt fs paths1 None)
      (λ fs1, delete_multiple_venvs fmt fs1 paths2 None).
Proof.
  unfold delete_multiple_venvs. rewrite delete_loop_app.
  rewrite (delete_loop_None_acc fmt paths1 _ (length paths1)).
  cbn [batch_then].
  destruct (delete_loop fmt None (length paths1) paths1 fs 0 0 [])
    as [fs1 d1 b1 fl1|]; [|done].
  rewrite Nat.add_0_l, N.add_0_l, app_nil_l.
  by rewrite (delete_loop_None_acc fmt paths2 _ (length paths2)).
Qed.

(** *** The callback as an observer *)

Lemma same_but_calls_refl st : same_but_calls st st.
Proof. done. Qed.

Lemma delete_file_silent f total root nm sz s u st st' :
  silent (Some f) → same_but_calls st st' →
  (delete_file (Some f) total root nm sz s u st).1
  = (delete_file None total root nm sz s u st').1 ∧
  same_but_calls (delete_file (Some f) total root nm sz s u st).2
    (delete_file None total root nm sz s u st').2.
Proof.
  intros Hf (Hb & He & Hr). unfold delete_file, same_but_calls.
  destruct s; [|simpl; by rewrite He].
  destruct u; [|simpl; by rewrite He]. cbn [negb].
  rewrite (Hf f _ _ eq_refl). simpl. by rewrite Hb.
Qed.

Lemma delete_files_silent f total root : ∀ es st st',
  silent (Some f) → same_but_calls st st' →
  (delete_files (Some f) total root es st).1 = (delete_files None total root es st').1 ∧
  same_but_calls (delete_files (Some f) total root es st).2
    (delete_files None total root es st').2.
Proof.
  induction es as [|[nm c] es IH]; intros st st' Hf Hst; [done|].
  simpl. rewrite <- (proj2 (proj2 Hst)).
  destruct (raised st) eqn:Hr, c as [sz s u|l r es0].
  - destruct (IH st st' Hf Hst) as [H1 H2].
    destruct (delete_files (Some f) _ _ es st), (delete_files None _ _ es st').
    simpl in *. by subst.
  - destruct (IH st st' Hf Hst) as [H1 H2].
    destruct (delete_files (Some f) _ _ es st), (delete_files None _ _ es st').
    simpl in *. by subst.
  - destruct (delete_file_silent f total root nm sz s u st st' Hf Hst) as [Hg Hs].
    destruct (delete_file (Some f) _ _ _ _ _ _ st) as [g1 st1],
             (delete_file None _ _ _ _ _ _ st') as [g2 st2].
    simpl in Hg, Hs. subst g2.
    destruct (IH st1 st2 Hf Hs) as [H1 H2].
    destruct (delete_files (Some f) _ _ es st1), (delete_files None _ _ es st2).
    simpl in *. by subst.
  - destruct (IH st st' Hf Hst) as [H1 H2].
    destruct (delete_files (Some f) _ _ es st), (delete_files None _ _ es st').
    simpl in *. by subst.
Qed.

Lemma delete_dirs_same root : ∀ es st st',
  same_but_calls st st' →
  (delete_dirs root es st).1 = (delete_dirs root es st').1 ∧
  same_but_calls (delete_dirs root es st).2 (delete_dirs root es st').2.
Proof.
  induction es as [|[nm c] es IH]; intros st st' Hst; [done|].
  simpl. rewrite <- (proj2 (proj2 Hst)).
  assert (Herr : ∀ msg, same_but_calls (add_error msg st) (add_error msg st')).
  { intros msg. destruct Hst as (? & He & ?). unfold same_but_calls. simpl.
    by rewrite He. }
  destruct (raised st), c as [sz s u|l r es0]; try destruct (rmdir _ _) as [e|];
    try (destruct (IH st st' Hst) as [H1 H2];
         destruct (delete_dirs root es st), (delete_dirs root es st');
         simpl in *; by subst).
  destruct (IH _ _ (Herr (dir_error (root ++ [nm]) e))) as [H1 H2].
  destruct (delete_dirs root es (add_error _ st)), (delete_dirs root es (add_error _ st')).
  simpl in *. by subst.
Qed.

Lemma delete_walk_silent f total n :
  silent (Some f) → ∀ root st st', same_but_calls st st' →
  (delete_walk (Some f) total root n st).1 = (delete_walk None total root n st').1 ∧
  same_but_calls (delete_walk (Some f) total root n st).2
    (delete_walk None total root n st').2.
Proof.
  intros Hf. induction n as [sz s u|l r es IH] using node_ind;
    intros root st st' Hst; [done|].
  simpl. destruct l; [|done]. cbn [negb].
  assert (Hsub :
    (walk_subdirs (delete_walk (Some f) total) root es st).1
    = (walk_subdirs (delete_walk None total) root es st').1 ∧
    same_but_calls (walk_subdirs (delete_walk (Some f) total) root es st).2
      (walk_subdirs (delete_walk None total) root es st').2).
  { clear -IH Hst. revert st st' Hst.
    induction IH as [|[nm c] es Hc _ IHes]; intros st st' Hst; [done|].
    simpl. destruct (Hc (root ++ [nm]) st st' Hst) as [H1 H2]. cbn [snd] in H1, H2.
    destruct (delete_walk (Some f) _ _ c st) as [c1 st1],
             (delete_walk None _ _ c st') as [c2 st2].
    simpl in H1, H2. subst c2.
    destruct (IHes st1 st2 H2) as [H3 H4].
    destruct (walk_subdirs (delete_walk (Some f) total) root es st1),
             (walk_subdirs (delete_walk None total) root es st2).
    simpl in *. by subst. }
  destruct Hsub as [H1 H2].
  destruct (walk_subdirs (delete_walk (Some f) total) root es st) as [es1 st1],
           (walk_subdirs (delete_walk None total) root es st') as [es1' st1'].
  simpl in H1, H2. subst es1'.
  destruct (delete_files_silent f total root es1 st1 st1' Hf H2) as [H3 H4].
  destruct (delete_files (Some f) _ _ es1 st1) as [es2 st2],
           (delete_files None _ _ es1 st1') as [es2' st2'].
  simpl in H3, H4. subst es2'.
  destruct (delete_dirs_same root es2 st2 st2' H4) as [H5 H6].
  destruct (delete_dirs root es2 st2), (delete_dirs root es2 st2').
  simpl in *. by subst.
Qed.

(** X20: the callback only watches.  A progress callback that never raises
    changes nothing in what safe_delete_venv does: the result and the file
    system left are those of the call without a callback. *)
Theorem safe_delete_venv_callback_observes fs (venv_path : path) cb :
  silent cb →
  success (safe_delete_venv fs venv_path cb) = success (safe_delete_venv fs venv_path None) ∧
  detail (safe_delete_venv fs venv_path cb) = detail (safe_delete_venv fs venv_path None) ∧
  fs_after (safe_delete_venv fs venv_path cb) = fs_after (safe_delete_venv fs venv_path None).
Proof.
  intros Hcb. destruct cb as [f|]; [|done].
  destruct (resolve fs venv_path) as [[sz s u|l r es]|] eqn:Hres;
    try (unfold safe_delete_venv; rewrite Hres; done).
  rewrite !(safe_delete_venv_dir _ _ _ _ _ _ Hres). cbn zeta.
  cbn [success detail fs_after]. unfold deletion.
  destruct (delete_walk_silent f (walk_size (Dir l r es) 0) (Dir l r es) Hcb venv_path
              _ _ (same_but_calls_refl (Progress 0 [] [] None))) as [H1 H2].
  destruct (delete_walk (Some f) _ _ _ _) as [n1 st1],
           (delete_walk None _ _ _ _) as [n2 st2].
  simpl in H1, H2. subst n2. destruct H2 as (Hb & He & Hr).
  unfold remove_root. rewrite <- Hr.
  destruct (raised st1) eqn:Hr1; cbn [fst snd].
  - unfold report. by rewrite <- Hr, Hr1.
  - destruct (rmdir venv_path n1), (rmtree (str_path venv_path) venv_path n1); cbn [fst snd];
      unfold report; simpl; rewrite <- ?Hr, ?Hr1, <- ?He, <- ?Hb; done.
Qed.

Lemma safe_delete_venv_callback_observes_witness :
  detail (safe_delete_venv fs_locked ["v"] (Some quiet))
  = detail (safe_delete_venv fs_locked ["v"] None).
Proof.
  refine (proj1 (proj2 (safe_delete_venv_callback_observes fs_locked ["v"] (Some quiet) _))).
  by intros f b t [= <-].
Defined.

End CleanerExtra.
